(** * AlphaLearn backend: word-set builder and session store

    A shallow embedding of [app.py] and [database.py].  Python values that
    cross a JSON boundary are kept as JSON trees, Python exceptions are an
    error result, the two external HTTP services are an oracle over the
    history of calls, and the SQLite connection is a pair of a committed
    and a working database threaded through every statement. *)

From Stdlib Require Import ZArith QArith Qround Qabs Qpower Lia Lqa Bool Ascii String Sorted.
From stdpp Require Import base option list strings pretty gmap.

Set Warnings "-register-all".
Local Open Scope string_scope.
Local Open Scope list_scope.
Local Open Scope Z_scope.

(** ** Python values and exceptions *)

Module Py.

(** The exception classes the two source files can meet.  [RequestException]
    stands for the whole [requests.exceptions] hierarchy (connection errors
    and the [HTTPError] of [raise_for_status]); [DatabaseError] for the
    [sqlite3.Error] hierarchy. *)
Inductive exn : Set :=
  | KeyError | IndexError | TypeError | AttributeError | ValueError
  | OverflowError | RequestException | DatabaseError.

#[global] Instance exn_eq_dec : EqDecision exn.
Proof. solve_decision. Defined.

(** A Python expression either yields a value or raises. *)
Inductive res (A : Type) : Type :=
  | Ok (a : A)
  | Raise (e : exn).
Arguments Ok {A} a.
Arguments Raise {A} e.

#[global] Instance res_ret : MRet res := fun _ a => Ok a.
#[global] Instance res_bind : MBind res := fun _ _ f m =>
  match m with Ok a => f a | Raise e => Raise e end.

(** What [json.loads] / [request.get_json] / [response.json] build: [None],
    [bool], [int], [str], [list] and [dict] with [str] keys.  A [dict] keeps
    its bindings in insertion order (the order [for k in d] visits them) and
    has no repeated key; lookup takes the first binding.  JSON floats are not
    part of the model. *)
Inductive json : Type :=
  | JNull
  | JBool (b : bool)
  | JNum (n : Z)
  | JStr (s : string)
  | JArr (items : list json)
  | JObj (fields : list (string * json)).

(** [d.get(k)] on the bindings of a dict. *)
Fixpoint assoc (k : string) (fields : list (string * json)) : option json :=
  match fields with
  | [] => None
  | (k', v) :: rest => if String.eqb k k' then Some v else assoc k rest
  end.

(** [x[k]] for a [str] key [k]. *)
Definition getitem (x : json) (k : string) : res json :=
  match x with
  | JObj fields => match assoc k fields with Some v => Ok v | None => Raise KeyError end
  | _ => Raise TypeError
  end.

(** [x[0]]. A dict decoded from JSON has only [str] keys, so [d[0]] is a
    [KeyError]. *)
Definition getitem0 (x : json) : res json :=
  match x with
  | JArr (v :: _) => Ok v
  | JArr [] => Raise IndexError
  | JStr (String c _) => Ok (JStr (String c ""))
  | JStr "" => Raise IndexError
  | JObj _ => Raise KeyError
  | _ => Raise TypeError
  end.

(** The one-character strings of a [str], in order. *)
Fixpoint chars (s : string) : list json :=
  match s with
  | "" => []
  | String c rest => JStr (String c "") :: chars rest
  end.

(** The values [for v in x] visits. *)
Definition iter (x : json) : res (list json) :=
  match x with
  | JArr items => Ok items
  | JStr s => Ok (chars s)
  | JObj fields => Ok (map (fun kv => JStr (fst kv)) fields)
  | _ => Raise TypeError
  end.

(** [needle in haystack] on two strings. *)
Fixpoint substring_of (needle haystack : string) : bool :=
  String.prefix needle haystack ||
  match haystack with
  | "" => false
  | String _ rest => substring_of needle rest
  end.

Definition is_str (k : string) (v : json) : bool :=
  match v with JStr s => String.eqb s k | _ => false end.

(** [k in x] for a [str] [k]. *)
Definition contains (k : string) (x : json) : res bool :=
  match x with
  | JObj fields => Ok (bool_decide (is_Some (assoc k fields)))
  | JArr items => Ok (existsb (is_str k) items)
  | JStr s => Ok (substring_of k s)
  | _ => Raise TypeError
  end.

(** [bool(x)]. *)
Definition truthy (x : json) : bool :=
  match x with
  | JNull => false
  | JBool b => b
  | JNum n => negb (n =? 0)%Z
  | JStr s => negb (String.eqb s "")
  | JArr items => match items with [] => false | _ => true end
  | JObj fields => match fields with [] => false | _ => true end
  end.

(** [x[:n]]: lists and strings slice; a dict rejects a slice key and the
    scalars are not subscriptable (neither is caught by the callers, which
    only handle [RequestException]). *)
Definition slice_to (n : nat) (x : json) : res json :=
  match x with
  | JArr items => Ok (JArr (take n items))
  | JStr s => Ok (JStr (String.substring 0 n s))
  | _ => Raise TypeError
  end.

Definition is_lower (c : ascii) : bool :=
  (97 <=? nat_of_ascii c)%nat && (nat_of_ascii c <=? 122)%nat.
Definition is_upper (c : ascii) : bool :=
  (65 <=? nat_of_ascii c)%nat && (nat_of_ascii c <=? 90)%nat.
Definition to_upper (c : ascii) : ascii :=
  if is_lower c then ascii_of_nat (nat_of_ascii c - 32) else c.
Definition to_lower (c : ascii) : ascii :=
  if is_upper c then ascii_of_nat (nat_of_ascii c + 32) else c.

Fixpoint map_string (f : ascii -> ascii) (s : string) : string :=
  match s with
  | "" => ""
  | String c rest => String (f c) (map_string f rest)
  end.

(** [s.lower()] and [s.capitalize()].  A string is a sequence of bytes here
    and only the letters of ASCII change case.  On text with other cased
    letters Python follows Unicode (and can change the length of the text),
    so the two functions stand for the methods on ASCII text only; the
    theorems below name the result [capitalize s] and use no property of
    it. *)
Definition lower (s : string) : string := map_string to_lower s.
Definition capitalize (s : string) : string :=
  match s with
  | "" => ""
  | String c rest => String (to_upper c) (lower rest)
  end.

(** [word.capitalize()] where [word] came out of a JSON document: only a
    [str] has the method. *)
Definition capitalize_value (word : json) : res string :=
  match word with
  | JStr s => Ok (capitalize s)
  | _ => Raise AttributeError
  end.

(** State and exceptions together: a computation over a state [S] returns a
    value or raises, and in both cases leaves a state behind. *)
Definition st (S A : Type) : Type := S -> res A * S.

Definition ret {S A} (a : A) : st S A := fun s => (Ok a, s).
Definition lift {S A} (r : res A) : st S A := fun s => (r, s).
Definition bind {S A B} (m : st S A) (k : A -> st S B) : st S B :=
  fun s => match m s with
           | (Ok a, s') => k a s'
           | (Raise e, s') => (Raise e, s')
           end.

(** [try: m except handled: h]. *)
Definition try_except {S A} (m : st S A) (handled : exn -> bool) (h : st S A) : st S A :=
  fun s => match m s with
           | (Raise e, s') => if handled e then h s' else (Raise e, s')
           | ok => ok
           end.

End Py.

Export Py.

Declare Scope py_scope.
Delimit Scope py_scope with py.
Notation "x <- m ;; k" := (bind m (fun x => k))
  (at level 100, m at next level, right associativity) : py_scope.
Notation "m ;;; k" := (bind m (fun _ => k))
  (at level 100, right associativity) : py_scope.
Local Open Scope py_scope.

(** ** The two external services *)

Module Http.

(** The two GET requests the program sends.  The dictionary URL is an
    f-string over the looked-up value, so the value identifies the request. *)
Inductive request : Type :=
  | GetDatamuse (sp md : string) (max : Z)
  | GetDictionaryEntry (word : json).

(** What [requests.get] comes back with: a transport failure (raised as a
    [RequestException]) or a response whose body decodes as JSON. *)
Inductive reply : Type :=
  | ConnectionFailed
  | Response (status_code : Z) (body : json).

(** The calls made so far, oldest first, each with its outcome. *)
Definition history : Type := list (request * reply).

(** The outside world: it answers a request knowing everything that was
    asked before, so a service may answer the same request differently the
    second time. *)
Definition service : Type := history -> request -> reply.

Definition requests_get (net : service) (req : request) : st history (Z * json) :=
  fun h =>
    let r := net h req in
    (match r with
     | ConnectionFailed => Raise RequestException
     | Response status_code body => Ok (status_code, body)
     end, h ++ [(req, r)]).

(** [response.raise_for_status()]: an [HTTPError] for 4xx and 5xx. *)
Definition raise_for_status (response : Z * json) : res unit :=
  if (400 <=? fst response) && (fst response <? 600) then Raise RequestException else Ok tt.

End Http.

Export Http.

(** ** The SQLite connection ([database.py]) *)

Module Sqlite.

(** A stored value, as the [sqlite3] module binds and returns it. *)
Inductive value : Type :=
  | Null
  | Integer (n : Z)
  | Text (s : string).

#[global] Instance value_eq_dec : EqDecision value.
Proof. solve_decision. Defined.

(** Binding a Python value to a [?]: [None], [bool] (an [int]), [int] within
    64 bits and [str] are supported; a [list] or [dict] is rejected with an
    [sqlite3] error and a larger [int] with [OverflowError]. *)
Definition bind_param (v : json) : res value :=
  match v with
  | JNull => Ok Null
  | JBool b => Ok (Integer (if b then 1 else 0))
  | JNum n =>
      if (- 2 ^ 63 <=? n) && (n <? 2 ^ 63) then Ok (Integer n) else Raise OverflowError
  | JStr s => Ok (Text s)
  | JArr _ | JObj _ => Raise DatabaseError
  end.

(** The Python value of a column of an [sqlite3.Row]. *)
Definition to_python (v : value) : json :=
  match v with
  | Null => JNull
  | Integer n => JNum n
  | Text s => JStr s
  end.

(** Modelled from the spec: [schema.sql] is not among the sources.  The
    tables and columns are the ones the SQL statements of [database.py] and
    [app.py] name; the spec (section 3) gives [id] as the key of a user and
    of a session and treats the rest of the schema as plain storage, so a
    column keeps the value bound to it and the only rule is that [id] is the
    row id SQLite assigns. *)
Record user_row : Type := UserRow {
  u_id : Z;
  u_username : value;
  u_password : value
}.

Record session_row : Type := SessionRow {
  s_id : Z;
  s_user_id : Z;
  s_mode : value;
  s_score_percent : value;
  s_date : string
}.

Record word_row : Type := WordRow {
  w_session_id : Z;
  w_letter : value;
  w_word_text : value;
  w_meaning : value;
  w_example : value
}.

Record quiz_row : Type := QuizRow {
  q_session_id : Z;
  q_quiz_data : string
}.

(** The four tables, each in row-id (insertion) order. *)
Record database : Type := Database {
  user_table : list user_row;
  session_table : list session_row;
  word_table : list word_row;
  quiz_table : list quiz_row
}.

Definition empty_database : database := Database [] [] [] [].

(** An open connection ([g.db]).  [working] is what the connection sees,
    its own uncommitted rows included; [committed] is what is on disk and
    what every other connection sees.  [faults] is the storage engine's
    behaviour on the statements still to come ([true]: the next statement
    fails); [clock] is the value of [CURRENT_TIMESTAMP]. *)
Record connection : Type := Connection {
  committed : database;
  working : database;
  faults : list bool;
  clock : string
}.

(** [sqlite3.connect] in [get_db]. *)
Definition connect (db : database) (fs : list bool) (now : string) : connection :=
  {| committed := db; working := db; faults := fs; clock := now |}.

(** [close_db]: closing without a commit drops the open transaction. *)
Definition close_db (c : connection) : database := committed c.

(** Every statement starts by asking the engine whether it can run. *)
Definition statement : st connection unit :=
  fun c =>
    match faults c with
    | failed :: fs =>
        (if failed : bool then Raise DatabaseError else Ok tt,
         {| committed := committed c; working := working c;
            faults := fs; clock := clock c |})
    | [] => (Ok tt, c)
    end.

(** A [SELECT]: reads the connection's view. *)
Definition query {A} (q : database -> A) : st connection A :=
  statement;;; fun c => (Ok (q (working c)), c).

(** An [INSERT]: rewrites the connection's view and returns
    [cursor.lastrowid]. *)
Definition insert (f : database -> string -> Z * database) : st connection Z :=
  statement;;;
  fun c =>
    let '(rowid, db') := f (working c) (clock c) in
    (Ok rowid,
     {| committed := committed c; working := db';
        faults := faults c; clock := clock c |}).

(** [db.commit()]. *)
Definition commit : st connection unit :=
  statement;;;
  fun c =>
    (Ok tt,
     {| committed := working c; working := working c;
        faults := faults c; clock := clock c |}).

(** The row id SQLite gives the next row of a table that never loses rows. *)
Definition next_rowid (ids : list Z) : Z := 1 + foldr Z.max 0 ids.

End Sqlite.

Export Sqlite.

Module Database.

(** The library functions the store calls and the sources do not define:
    [json.dumps] and [json.loads] on the quiz payload, werkzeug's
    [generate_password_hash], and the number SQLite's [AVG] reads in a text
    value. *)
Class Runtime : Type := {
  json_dumps : json -> string;
  json_loads : string -> res json;
  generate_password_hash : string -> string;
  sqlite_numeric : string -> Q
}.

Section Store.
Context {runtime : Runtime}.

Definition insert_user (username password : value) : st connection Z :=
  insert (fun db _ =>
    let rowid := next_rowid (map u_id (user_table db)) in
    (rowid,
     {| user_table := user_table db ++ [UserRow rowid username password];
        session_table := session_table db;
        word_table := word_table db;
        quiz_table := quiz_table db |})).

Definition insert_session (user_id : Z) (mode score_percent : value) : st connection Z :=
  insert (fun db now =>
    let rowid := next_rowid (map s_id (session_table db)) in
    (rowid,
     {| user_table := user_table db;
        session_table :=
          session_table db ++ [SessionRow rowid user_id mode score_percent now];
        word_table := word_table db;
        quiz_table := quiz_table db |})).

(** The row ids of the [word] and [quiz] tables are never read. *)
Definition insert_word (r : word_row) : st connection Z :=
  insert (fun db _ =>
    (Z.of_nat (S (length (word_table db))),
     {| user_table := user_table db;
        session_table := session_table db;
        word_table := word_table db ++ [r];
        quiz_table := quiz_table db |})).

Definition insert_quiz (session_id : Z) (quiz_data : string) : st connection Z :=
  insert (fun db _ =>
    (Z.of_nat (S (length (quiz_table db))),
     {| user_table := user_table db;
        session_table := session_table db;
        word_table := word_table db;
        quiz_table := quiz_table db ++ [QuizRow session_id quiz_data] |})).

(** One tuple of [words_to_insert]. *)
Definition word_tuple (w : json) : res (json * json * json * json) :=
  l ← getitem w "letter";
  t ← getitem w "word";
  m ← getitem w "meaning";
  e ← getitem w "example";
  Ok (l, t, m, e).

(** The list comprehension building [words_to_insert]. *)
Fixpoint word_tuples (ws : list json) : res (list (json * json * json * json)) :=
  match ws with
  | [] => Ok []
  | w :: rest =>
      t ← word_tuple w;
      ts ← word_tuples rest;
      Ok (t :: ts)
  end.

(** [cursor.executemany]: one insert per tuple, in order, stopping at the
    first that fails. *)
Fixpoint executemany_words (session_id : Z) (tuples : list (json * json * json * json))
  : st connection unit :=
  match tuples with
  | [] => ret tt
  | (l, t, m, e) :: rest =>
      l' <- lift (bind_param l);;
      t' <- lift (bind_param t);;
      m' <- lift (bind_param m);;
      e' <- lift (bind_param e);;
      insert_word (WordRow session_id l' t' m' e');;;
      executemany_words session_id rest
  end.

Definition save_session_data (user_id : Z) (session_data : json) : st connection unit :=
  mode <- lift (getitem session_data "mode");;
  score_percent <- lift (getitem session_data "scorePercent");;
  mode' <- lift (bind_param mode);;
  score_percent' <- lift (bind_param score_percent);;
  session_id <- insert_session user_id mode' score_percent';;
  words <- lift (getitem session_data "words");;
  items <- lift (iter words);;
  words_to_insert <- lift (word_tuples items);;
  executemany_words session_id words_to_insert;;;
  quiz <- lift (getitem session_data "quiz");;
  let quiz_json := json_dumps quiz in
  insert_quiz session_id quiz_json;;;
  commit.

(** [ORDER BY date DESC], rows with equal dates staying in table order. *)
Fixpoint insert_by_date (r : session_row) (sorted : list session_row) : list session_row :=
  match sorted with
  | [] => [r]
  | x :: rest =>
      if String.ltb (s_date x) (s_date r) then r :: x :: rest
      else x :: insert_by_date r rest
  end.

Definition order_by_date_desc (rows : list session_row) : list session_row :=
  foldl (fun sorted r => insert_by_date r sorted) [] rows.

(** [dict(row)] for a row of the query of [get_user_sessions];
    [strftime] keeps the first sixteen characters of a timestamp. *)
Definition session_summary (r : session_row) : json :=
  JObj [("id", JNum (s_id r)); ("mode", to_python (s_mode r));
        ("score_percent", to_python (s_score_percent r));
        ("date_formatted", JStr (String.substring 0 16 (s_date r)))].

Definition get_user_sessions (user_id : Z) : st connection (list json) :=
  sessions <- query (fun db =>
    order_by_date_desc (filter (fun r => s_user_id r = user_id) (session_table db)));;
  ret (map session_summary sessions).

(** [dict(row)] for a row of the word query of [get_session_details]. *)
Definition word_dict (r : word_row) : json :=
  JObj [("letter", to_python (w_letter r)); ("word_text", to_python (w_word_text r));
        ("meaning", to_python (w_meaning r)); ("example", to_python (w_example r))].

(** The dict [get_session_details] returns. *)
Record session_details : Type := SessionDetails {
  sd_id : Z;
  sd_mode : json;
  sd_scorePercent : json;
  sd_dateISO : string;
  sd_words : list json;
  sd_quiz : json
}.

Definition get_session_details (user_id session_id : Z)
  : st connection (option session_details) :=
  session <- query (fun db =>
    head (filter (fun r => s_id r = session_id ∧ s_user_id r = user_id) (session_table db)));;
  match session with
  | None => ret None
  | Some session =>
      words <- query (fun db => filter (fun r => w_session_id r = session_id) (word_table db));;
      quiz_data <- query (fun db =>
        head (filter (fun r => q_session_id r = session_id) (quiz_table db)));;
      quiz <- lift (match quiz_data with
                    | Some r => json_loads (q_quiz_data r)
                    | None => Ok (JArr [])
                    end);;
      ret (Some {| sd_id := s_id session;
                   sd_mode := to_python (s_mode session);
                   sd_scorePercent := to_python (s_score_percent session);
                   sd_dateISO := s_date session;
                   sd_words := map word_dict words;
                   sd_quiz := quiz |})
  end.

(** The number [AVG] reads in a stored value; [NULL] is skipped. *)
Definition numeric (v : value) : option Q :=
  match v with
  | Null => None
  | Integer n => Some (inject_Z n)
  | Text s => Some (sqlite_numeric s)
  end.

(** Python's [round] of a number to an [int]: ties go to the even side. *)
Definition py_round (q : Q) : Z :=
  let f := Qfloor q in
  match (q - inject_Z f ?= 1 # 2)%Q with
  | Lt => f
  | Gt => f + 1
  | Eq => if Z.even f then f else f + 1
  end.

(** The binade of a number other than 0: the [e] with
    [2^e <= |q| < 2^(e+1)]. *)
Definition binade (q : Q) : Z :=
  let e := Z.log2 (Z.abs (Qnum q)) - Z.log2 (Zpos (Qden q)) in
  if Qle_bool (2 ^ e) (Qabs q) then e else e - 1.

(** The double nearest to a number (IEEE 754 binary64, round to nearest,
    ties to even): 53 significant bits, and multiples of [2^-1074] below
    [2^-1022].  A number beyond the largest double, which the engine turns
    into an infinity, is outside the model. *)
Definition binary64 (q : Q) : Q :=
  if Qeq_bool q 0 then 0%Q
  else
    let ulp := (2 ^ Z.max (binade q - 52) (- 1074))%Q in
    (inject_Z (py_round (q / ulp)) * ulp)%Q.

(** [AVG(x)]: [NULL] when no row has a value.  SQLite computes in double
    precision: it adds the values one after the other to a [double]
    accumulator, converting each to a [double] first, and divides by their
    number.  (Since 3.43 integers are first added exactly; the two agree
    as long as every partial sum is below [2^53].) *)
Definition sql_avg (vs : list value) : option Q :=
  match omap numeric vs with
  | [] => None
  | qs =>
      Some (binary64 (foldl (fun acc q => binary64 (acc + binary64 q)) 0 qs
                      / binary64 (inject_Z (Z.of_nat (length qs)))))%Q
  end.

Record tier_stats : Type := TierStats { average : Z; count : Z }.

Definition levels : list string := ["beginner"; "intermediate"; "proficient"].

(** The aggregate row of one level. *)
Definition level_aggregate (user_id : Z) (level : string) (db : database)
  : option Q * option Z :=
  let rows :=
    filter (fun r => s_user_id r = user_id ∧ s_mode r = Text level) (session_table db) in
  (sql_avg (map s_score_percent rows), Some (Z.of_nat (length rows))).

Fixpoint tracking_loop (user_id : Z) (ls : list string) (stats : gmap string tier_stats)
  : st connection (gmap string tier_stats) :=
  match ls with
  | [] => ret stats
  | level :: rest =>
      result <- query (level_aggregate user_id level);;
      let stat := {| average := match fst result with Some a => py_round a | None => 0 end;
                     count := match snd result with Some n => n | None => 0 end |} in
      tracking_loop user_id rest (<[level := stat]> stats)
  end.

Definition get_tracking_stats (user_id : Z) : st connection (gmap string tier_stats) :=
  tracking_loop user_id levels ∅.

End Store.

End Database.

(** ** Dictionary lookup and the word-set builder ([app.py]) *)

Module App.

Import Database.

(** The server-side session: empty, or carrying the two keys [login] sets. *)
Record identity : Type := Identity { session_user_id : Z; session_username : json }.
Definition flask_session : Type := option identity.

Definition error_json (msg : string) : json := JObj [("error", JStr msg)].
Definition message_json (msg : string) : json := JObj [("message", JStr msg)].

(** The dict [get_word_details] returns; [get_words] later adds the
    ['letter'] key to it. *)
Record details : Type := Details {
  word : string;
  meaning : json;
  example : json;
  letter : option string
}.

Definition set_letter (l : string) (d : details) : details :=
  {| word := word d; meaning := meaning d; example := example d; letter := Some l |}.

Definition no_example : string := "No example sentence found.".

(** [example != "No example sentence found."] *)
Definition differs_from_no_example (example : json) : bool :=
  match example with JStr s => negb (String.eqb s no_example) | _ => true end.

(** The inner [for definition in meaning_data['definitions']] loop: the
    value of [example] when the loop is left. *)
Fixpoint scan_definitions (definitions : list json) (example : json) : res json :=
  match definitions with
  | [] => Ok example
  | definition :: rest =>
      has ← contains "example" definition;
      if has : bool then getitem definition "example"
      else scan_definitions rest example
  end.

(** The outer [for meaning_data in data['meanings']] loop. *)
Fixpoint scan_meanings (meanings : list json) (example : json) : res json :=
  match meanings with
  | [] => Ok example
  | meaning_data :: rest =>
      definitions ← getitem meaning_data "definitions";
      items ← iter definitions;
      example' ← scan_definitions items example;
      if differs_from_no_example example' then Ok example'
      else scan_meanings rest example'
  end.

(** Lines 32-45 of [get_word_details], everything after the status check. *)
Definition parse_details (w : json) (body : json) : res details :=
  data ← getitem0 body;
  meanings ← getitem data "meanings";
  first_meaning ← getitem0 meanings;
  definitions ← getitem first_meaning "definitions";
  first_definition ← getitem0 definitions;
  meaning_text ← getitem first_definition "definition";
  meanings' ← getitem data "meanings";
  items ← iter meanings';
  example_text ← scan_meanings items (JStr no_example);
  capitalized ← capitalize_value w;
  Ok {| word := capitalized; meaning := meaning_text; example := example_text;
        letter := None |}.

(** The two [except] clauses of [get_word_details]. *)
Definition lookup_handled (e : exn) : bool :=
  match e with
  | RequestException | KeyError | IndexError => true
  | _ => false
  end.

Section Network.
Variable net : service.

Definition get_word_details (w : json) : st history (option details) :=
  try_except
    (response <- requests_get net (GetDictionaryEntry w);;
     lift (raise_for_status response);;;
     d <- lift (parse_details w (snd response));;
     ret (Some d))
    lookup_handled
    (ret None).

(** Datamuse query parameters per level. *)
Record params : Type := Params { md : string; max : Z }.

Definition difficulty_params : gmap string params :=
  {[ "beginner" := Params "f" 1000;
     "intermediate" := Params "f" 500;
     "proficient" := Params "f" 100 ]}.

Definition fallback_words : gmap string string :=
  list_to_map
    [("A", "Apple"); ("B", "Brave"); ("C", "Clever"); ("D", "Dream"); ("E", "Energy");
     ("F", "Future"); ("G", "Grace"); ("H", "Happy"); ("I", "Imagine"); ("J", "Journey");
     ("K", "Kind"); ("L", "Laugh"); ("M", "Magic"); ("N", "Noble"); ("O", "Open");
     ("P", "Peace"); ("Q", "Quest"); ("R", "Rise"); ("S", "Smile"); ("T", "Trust");
     ("U", "Unity"); ("V", "Value"); ("W", "Wish"); ("X", "Xenial"); ("Y", "Youth");
     ("Z", "Zeal")].

(** [string.ascii_uppercase], one string per letter. *)
Definition ascii_uppercase : list string :=
  ["A"; "B"; "C"; "D"; "E"; "F"; "G"; "H"; "I"; "J"; "K"; "L"; "M";
   "N"; "O"; "P"; "Q"; "R"; "S"; "T"; "U"; "V"; "W"; "X"; "Y"; "Z"].

(** [d[k]] on a dict literal of the program. *)
Definition subscript {V} (d : gmap string V) (k : string) : res V :=
  match d !! k with Some v => Ok v | None => Raise KeyError end.

(** The [for word_data in potential_words[:5]] loop: the record it appended
    before [break], if any. *)
Fixpoint probe_candidates (l : string) (candidates : list json) : st history (option details) :=
  match candidates with
  | [] => ret None
  | word_data :: rest =>
      w <- lift (getitem word_data "word");;
      found <- get_word_details w;;
      match found with
      | Some d => ret (Some (set_letter l d))
      | None => probe_candidates l rest
      end
  end.

(** The [try] block of one letter, with its [except RequestException]. *)
Definition query_candidates (p : params) (l : string) : st history (option details) :=
  try_except
    (response <- requests_get net (GetDatamuse (lower l +:+ "*") (md p) (max p));;
     lift (raise_for_status response);;;
     let potential_words := snd response in
     if truthy potential_words then
       first5 <- lift (slice_to 5 potential_words);;
       items <- lift (iter first5);;
       probe_candidates l items
     else ret None)
    (fun e => bool_decide (e = RequestException))
    (ret None).

(** One iteration of [for letter in string.ascii_uppercase]. *)
Definition letter_step (p : params) (words_list : list details) (l : string)
  : st history (list details) :=
  found <- query_candidates p l;;
  match found with
  | Some d => ret (words_list ++ [d])
  | None =>
      fallback <- lift (subscript fallback_words l);;
      found' <- get_word_details (JStr fallback);;
      match found' with
      | Some d => ret (words_list ++ [set_letter l d])
      | None => ret words_list
      end
  end.

Fixpoint for_letters (p : params) (letters : list string) (words_list : list details)
  : st history (list details) :=
  match letters with
  | [] => ret words_list
  | l :: rest => words_list' <- letter_step p words_list l;; for_letters p rest words_list'
  end.

(** [jsonify] of a word record. *)
Definition details_json (d : details) : json :=
  JObj ([("word", JStr (word d)); ("meaning", meaning d); ("example", example d)]
        ++ match letter d with Some l => [("letter", JStr l)] | None => [] end).

Definition level_params (level : string) : res params :=
  fallback ← subscript difficulty_params "beginner";
  Ok (default fallback (difficulty_params !! level)).

(** The word list [get_words] hands to [jsonify]. *)
Definition build_words (level : string) : st history (list details) :=
  p <- lift (level_params level);;
  for_letters p ascii_uppercase [].

(** [GET /api/words/<level>]: status and JSON body. *)
Definition get_words (session : flask_session) (level : string) : st history (Z * json) :=
  match session with
  | None => ret (401, error_json "Authentication required.")
  | Some _ =>
      words_list <- build_words level;;
      ret (200, JArr (map details_json words_list))
  end.

End Network.

Section Sessions.
Context {runtime : Runtime}.

(** One request: the handler runs on a connection opened for it, an
    exception it does not handle surfaces as [Raise] (Flask answers 500),
    and the teardown closes the connection whatever happened. *)
Definition serve (handler : st connection (Z * json))
    (db : database) (fs : list bool) (now : string) : res (Z * json) * database :=
  let '(r, c) := handler (connect db fs now) in (r, close_db c).

(** [data.get(k)]: only a dict has the method. *)
Definition get (data : json) (k : string) : res json :=
  match data with
  | JObj fields => Ok (default JNull (assoc k fields))
  | _ => Raise AttributeError
  end.

(** [str(v)] inside an f-string, for the values that can be bound to a
    query parameter (a list or dict never reaches the f-string of
    [register]: binding it fails first). *)
Definition format_value (v : json) : string :=
  match v with
  | JNull => "None"
  | JBool true => "True"
  | JBool false => "False"
  | JNum n => pretty n
  | JStr s => s
  | JArr _ | JObj _ => ""
  end.

(** [generate_password_hash(password)]: encodes its argument, which only a
    [str] supports. *)
Definition hash_password (password : json) : res string :=
  match password with
  | JStr s => Ok (generate_password_hash s)
  | _ => Raise AttributeError
  end.

(** [POST /api/register] on the decoded request body. *)
Definition register (data : json) : st connection (Z * json) :=
  username <- lift (get data "username");;
  password <- lift (get data "password");;
  if negb (truthy username) || negb (truthy password) then
    ret (400, error_json "Username and password are required.")
  else
    username' <- lift (bind_param username);;
    existing <- query (fun db =>
      head (filter (fun r => u_username r = username') (user_table db)));;
    match existing with
    | Some _ =>
        ret (409, error_json ("User " +:+ format_value username +:+ " is already registered."))
    | None =>
        hashed <- lift (hash_password password);;
        insert_user username' (Text hashed);;;
        commit;;;
        ret (201, message_json "Registration successful!")
    end.

(** [POST /api/sessions]. *)
Definition save_session (session : flask_session) (data : json) : st connection (Z * json) :=
  match session with
  | None => ret (401, error_json "Authentication required.")
  | Some ident =>
      save_session_data (session_user_id ident) data;;;
      ret (201, message_json "Session saved successfully.")
  end.

(** [jsonify] of the dict [get_session_details] returns. *)
Definition session_details_json (d : session_details) : json :=
  JObj [("id", JNum (sd_id d)); ("mode", sd_mode d); ("scorePercent", sd_scorePercent d);
        ("dateISO", JStr (sd_dateISO d)); ("words", JArr (sd_words d)); ("quiz", sd_quiz d)].

(** [GET /api/sessions/<int:session_id>]. *)
Definition get_session_detail (session : flask_session) (session_id : Z)
  : st connection (Z * json) :=
  match session with
  | None => ret (401, error_json "Authentication required.")
  | Some ident =>
      session_details <- get_session_details (session_user_id ident) session_id;;
      match session_details with
      | Some d => ret (200, session_details_json d)
      | None => ret (404, error_json "Session not found or access denied.")
      end
  end.

End Sessions.

End App.


(** ** The remaining routes of [app.py] *)

Module Routes.

Import Database App.

(** werkzeug's [check_password_hash], applied to whatever the user row and
    the request hold; the sources call it and do not define it. *)
Class PasswordCheck : Type := {
  check_password_hash : json -> json -> res bool
}.

(** One request whose handler returns any kind of value: as [serve], the
    handler runs on its own connection, which the teardown closes. *)
Definition handle {A} (handler : st connection A)
    (db : database) (fs : list bool) (now : string) : res A * database :=
  let '(r, c) := handler (connect db fs now) in (r, close_db c).

Section Auth.
Context {runtime : Runtime} {checker : PasswordCheck}.

(** [POST /api/login] on the decoded request body: the response and the
    server-side session it leaves.  [WHERE username = ?] is never true of a
    [NULL] parameter.  The source collects the outcome in [error]; the two
    failures and the success are its three paths. *)
Definition login (session : flask_session) (data : json)
  : st connection (Z * json * flask_session) :=
  username <- lift (get data "username");;
  password <- lift (get data "password");;
  username' <- lift (bind_param username);;
  user <- query (fun db =>
    head (filter (fun r => u_username r = username' ∧ username' ≠ Null) (user_table db)));;
  match user with
  | None => ret (401, error_json "Incorrect username.", session)
  | Some row =>
      valid <- lift (check_password_hash (to_python (u_password row)) password);;
      if valid : bool then
        let name := to_python (u_username row) in
        ret (200,
             JObj [("message", JStr ("Welcome back, " +:+ format_value name +:+ "!"));
                   ("username", name)],
             Some (Identity (u_id row) name))
      else ret (401, error_json "Incorrect password.", session)
  end.

(** [POST /api/logout]: [session.clear()]. *)
Definition logout (session : flask_session) : Z * json * flask_session :=
  (200, message_json "Logged out successfully.", None).

(** [GET /api/check_auth]. *)
Definition check_auth (session : flask_session) : Z * json :=
  match session with
  | Some ident =>
      (200, JObj [("isAuthenticated", JBool true); ("username", session_username ident)])
  | None => (200, JObj [("isAuthenticated", JBool false)])
  end.

(** [GET /api/sessions]. *)
Definition get_sessions (session : flask_session) : st connection (Z * json) :=
  match session with
  | None => ret (401, error_json "Authentication required.")
  | Some ident =>
      sessions <- get_user_sessions (session_user_id ident);;
      ret (200, JArr sessions)
  end.

(** [jsonify] of the dict [get_tracking_stats] returns (the order of the
    keys of a JSON object carries no meaning). *)
Definition tier_stats_json (s : tier_stats) : json :=
  JObj [("average", JNum (average s)); ("count", JNum (count s))].

Definition tracking_json (stats : gmap string tier_stats) : json :=
  JObj (map (fun kv => (fst kv, tier_stats_json (snd kv))) (map_to_list stats)).

(** [GET /api/track]. *)
Definition get_tracking_data (session : flask_session) : st connection (Z * json) :=
  match session with
  | None => ret (401, error_json "Authentication required.")
  | Some ident =>
      tracking_data <- get_tracking_stats (session_user_id ident);;
      ret (200, tracking_json tracking_data)
  end.

End Auth.

End Routes.

Import Database App Routes.

(** ** Vocabulary of the specification *)

(** *** Dictionary responses, as section 4.1 reads them *)

(** The meanings of the first entry of a response. *)
Definition entry_meanings (body : json) : list json :=
  match body with
  | JArr (JObj entry :: _) =>
      match assoc "meanings" entry with Some (JArr ms) => ms | _ => [] end
  | _ => []
  end.

(** The definitions listed under one meaning. *)
Definition meaning_definitions (m : json) : list json :=
  match m with
  | JObj fields => match assoc "definitions" fields with Some (JArr ds) => ds | _ => [] end
  | _ => []
  end.

Definition definition_text (d : json) : option json :=
  match d with JObj fields => assoc "definition" fields | _ => None end.

Definition definition_example (d : json) : option json :=
  match d with JObj fields => assoc "example" fields | _ => None end.

(** "The first definition of the first meaning". *)
Definition first_meaning_text (body : json) : option json :=
  m ← head (entry_meanings body);
  d ← head (meaning_definitions m);
  definition_text d.

(** Every example sentence of a response, scanning "meanings in order, then
    definitions within each meaning in order". *)
Definition examples (body : json) : list json :=
  omap definition_example (concat (map meaning_definitions (entry_meanings body))).

(** "The first one carrying an example sentence; if none exists anywhere in
    the response, the literal string". *)
Definition first_example (body : json) : json :=
  default (JStr no_example) (head (examples body)).

(** The path to the first definition is there and has the expected types. *)
Definition has_expected_fields (body : json) : bool :=
  match body with
  | JArr (JObj entry :: _) =>
      match assoc "meanings" entry with
      | Some (JArr (JObj m :: _)) =>
          match assoc "definitions" m with
          | Some (JArr (JObj d :: _)) =>
              match assoc "definition" d with Some _ => true | None => false end
          | _ => false
          end
      | _ => false
      end
  | _ => false
  end.

(** A field on the path to the first definition is absent: no entry, no
    ['meanings'] key or an empty array under it, no ['definitions'] key or
    an empty array under it, no ['definition'] key. *)
Definition field_absent (body : json) : bool :=
  match body with
  | JArr [] => true
  | JArr (JObj entry :: _) =>
      match assoc "meanings" entry with
      | None | Some (JArr []) => true
      | Some (JArr (JObj m :: _)) =>
          match assoc "definitions" m with
          | None | Some (JArr []) => true
          | Some (JArr (JObj d :: _)) =>
              match assoc "definition" d with Some _ => false | None => true end
          | _ => false
          end
      | _ => false
      end
  | _ => false
  end.

Definition error_status (status_code : Z) : bool :=
  (400 <=? status_code) && (status_code <? 600).

(** The lookup failures of section 4.1 that the code turns into [None]. *)
Definition lookup_failure (r : reply) : bool :=
  match r with
  | ConnectionFailed => true
  | Response status_code body => error_status status_code || field_absent body
  end.

(** What a lookup returns, read off the reply it got. *)
Definition lookup_result (w : json) (r : reply) : res (option details) :=
  match r with
  | ConnectionFailed => Ok None
  | Response status_code body =>
      if error_status status_code then Ok None
      else match parse_details w body with
           | Ok d => Ok (Some d)
           | Raise e => if lookup_handled e then Ok None else Raise e
           end
  end.

(** *** The word-set builder, as section 4.3 reads it *)

Definition datamuse_request (p : params) (l : string) : request :=
  GetDatamuse (lower l +:+ "*") (md p) (max p).

(** The candidate source "returns empty": an empty list, or a transport or
    service failure. *)
Definition source_empty (r : reply) : bool :=
  match r with
  | ConnectionFailed => true
  | Response status_code body =>
      error_status status_code || match body with JArr [] => true | _ => false end
  end.

(** "At most the first 5 candidates, in order". *)
Definition candidates (r : reply) : list json :=
  match r with
  | ConnectionFailed => []
  | Response status_code body =>
      if error_status status_code then []
      else match body with JArr items => take 5 items | _ => [] end
  end.

(** Looking the words up one after the other, every lookup fails. *)
Inductive failed_lookups (net : service) : list json -> history -> history -> Prop :=
  | failed_nil h : failed_lookups net [] h h
  | failed_cons w ws h h1 h2 :
      get_word_details net w h = (Ok None, h1) ->
      failed_lookups net ws h1 h2 ->
      failed_lookups net (w :: ws) h h2.

(** A candidate the probe loop can use: a dict with a text under ['word']. *)
Definition candidate_ok (item : json) : bool :=
  match getitem item "word" with Ok (JStr _) => true | _ => false end.

(** A candidate source that keeps to its contract: it fails, or it returns a
    list of usable candidates. *)
Definition source_ok (r : reply) : bool :=
  match r with
  | ConnectionFailed => true
  | Response status_code body =>
      error_status status_code
      || match body with JArr items => forallb candidate_ok items | _ => false end
  end.

(** A world whose candidate source keeps to its contract and whose
    dictionary never makes a lookup raise. *)
Definition tame (net : service) : Prop :=
  (forall h sp md max, source_ok (net h (GetDatamuse sp md max)) = true) /\
  (forall h w, exists found,
      lookup_result (JStr w) (net h (GetDictionaryEntry (JStr w))) = Ok found).

(** *** One build, letter by letter *)

(** The outcome of one letter, as steps 1 to 5 of section 4.3 have it, in
    the world [net] from the history [h]: the candidate source is asked
    first; the words of its first five candidates are looked up in order,
    up to the first lookup that succeeds; when every one of them failed
    (or there was none), the fallback word of the letter is looked up.
    The outcome is the record of the lookup that succeeded, stamped with
    the letter, and the history right after that lookup; or no record,
    when the fallback lookup failed too. *)
Inductive letter_outcome (net : service) (p : params) (l : string) (h : history)
  : option details -> history -> Prop :=
  | candidate_found before word_data after tried w d h1 h' :
      candidates (net h (datamuse_request p l)) = before ++ word_data :: after ->
      Forall2 (fun word_data w => getitem word_data "word" = Ok w) before tried ->
      failed_lookups net tried
        (h ++ [(datamuse_request p l, net h (datamuse_request p l))]) h1 ->
      getitem word_data "word" = Ok w ->
      get_word_details net w h1 = (Ok (Some d), h') ->
      letter_outcome net p l h (Some (set_letter l d)) h'
  | fallback_found tried fallback d h1 h' :
      Forall2 (fun word_data w => getitem word_data "word" = Ok w)
              (candidates (net h (datamuse_request p l))) tried ->
      failed_lookups net tried
        (h ++ [(datamuse_request p l, net h (datamuse_request p l))]) h1 ->
      fallback_words !! l = Some fallback ->
      get_word_details net (JStr fallback) h1 = (Ok (Some d), h') ->
      letter_outcome net p l h (Some (set_letter l d)) h'
  | letter_omitted tried fallback h' :
      Forall2 (fun word_data w => getitem word_data "word" = Ok w)
              (candidates (net h (datamuse_request p l))) tried ->
      fallback_words !! l = Some fallback ->
      failed_lookups net (tried ++ [JStr fallback])
        (h ++ [(datamuse_request p l, net h (datamuse_request p l))]) h' ->
      letter_outcome net p l h None h'.

(** One slot of a build: its letter, the histories at which the iteration
    of the letter began and ended, and the record it contributed, if
    any. *)
Record slot : Type := Slot {
  slot_letter : string;
  slot_start : history;
  slot_end : history;
  slot_record : option details
}.

(** The slots follow one another from [h] to [h']: each begins with the
    history the one before it left. *)
Fixpoint chained (slots : list slot) (h h' : history) : Prop :=
  match slots with
  | [] => h' = h
  | s :: rest => slot_start s = h /\ chained rest (slot_end s) h'
  end.

(** The slot went as section 4.3 says. *)
Definition slot_outcome (net : service) (p : params) (s : slot) : Prop :=
  letter_outcome net p (slot_letter s) (slot_start s) (slot_record s) (slot_end s).

Definition has_record (s : slot) : Prop := is_Some (slot_record s).

(** *** Responses with the documented types *)

Definition is_dict (v : json) : bool :=
  match v with JObj _ => true | _ => false end.

(** A meaning: a dict whose ['definitions'], if there, is a list of dicts. *)
Definition typed_meaning (m : json) : bool :=
  match m with
  | JObj fields =>
      match assoc "definitions" fields with
      | None => true
      | Some (JArr ds) => forallb is_dict ds
      | Some _ => false
      end
  | _ => false
  end.

(** An entry: a dict whose ['meanings'], if there, is a list of meanings. *)
Definition typed_entry (e : json) : bool :=
  match e with
  | JObj fields =>
      match assoc "meanings" fields with
      | None => true
      | Some (JArr ms) => forallb typed_meaning ms
      | Some _ => false
      end
  | _ => false
  end.

(** A dictionary body: a list of entries, or a dict (the service's error
    document). *)
Definition typed_body (body : json) : bool :=
  match body with
  | JArr entries => forallb typed_entry entries
  | JObj _ => true
  | _ => false
  end.

Definition typed_reply (r : reply) : bool :=
  match r with
  | ConnectionFailed => true
  | Response status_code body => error_status status_code || typed_body body
  end.

(** A world whose two services answer with the documented types. *)
Definition typed_world (net : service) : Prop :=
  (forall h sp md max, source_ok (net h (GetDatamuse sp md max)) = true) /\
  (forall h w, typed_reply (net h (GetDictionaryEntry w)) = true).

(** *** Calls made *)

Definition is_datamuse (req : request) : bool :=
  match req with GetDatamuse _ _ _ => true | GetDictionaryEntry _ => false end.

(** The requests sent to the candidate source, in order. *)
Definition datamuse_calls (h : history) : list request :=
  filter (fun req => is_datamuse req = true) (map fst h).

(** *** The session store, as section 4.4 reads it *)

(** The id [createSession] gives the session it creates. *)
Definition created_id (db : database) : Z := next_rowid (map s_id (session_table db)).

(** The four bound values of one word tuple. *)
Definition bind_tuple (t : json * json * json * json)
  : res (value * value * value * value) :=
  let '(l, w, m, e) := t in
  l' ← bind_param l;
  w' ← bind_param w;
  m' ← bind_param m;
  e' ← bind_param e;
  Ok (l', w', m', e').

Definition word_row_of (session_id : Z) (r : value * value * value * value) : word_row :=
  let '(l, w, m, e) := r in WordRow session_id l w m e.

(** The database with more word rows. *)
Definition with_words (db : database) (rows : list word_row) : database :=
  {| user_table := user_table db;
     session_table := session_table db;
     word_table := word_table db ++ rows;
     quiz_table := quiz_table db |}.

(** The database with one more session: its header, its word rows and its
    quiz row, all under the id [created_id]. *)
Definition store (db : database) (user_id : Z) (mode score_percent : value)
    (now : string) (rows : list (value * value * value * value)) (quiz_data : string)
  : database :=
  {| user_table := user_table db;
     session_table :=
       session_table db ++ [SessionRow (created_id db) user_id mode score_percent now];
     word_table := word_table db ++ map (word_row_of (created_id db)) rows;
     quiz_table := quiz_table db ++ [QuizRow (created_id db) quiz_data] |}.

(** What the sessions, words and quizzes of a database owe each other:
    session ids are distinct, and every word row and quiz row belongs to a
    session of the table. *)
Definition database_ok (db : database) : Prop :=
  NoDup (map s_id (session_table db)) /\
  Forall (fun w => w_session_id w ∈ map s_id (session_table db)) (word_table db) /\
  Forall (fun q => q_session_id q ∈ map s_id (session_table db)) (quiz_table db).

(** The user a session id belongs to, if the id exists. *)
Definition session_owner (db : database) (session_id : Z) : option Z :=
  s_user_id <$> head (filter (fun r => s_id r = session_id) (session_table db)).

(** A WordRecord of section 3: four text fields. *)
Definition text_record (w : json) : bool :=
  match word_tuple w with
  | Ok (JStr _, JStr _, JStr _, JStr _) => true
  | _ => false
  end.

(** A submitted word as [getSessionDetail] gives it back: the same four
    values, the word itself under the column name [word_text]. *)
Definition stored_word (w : json) : json :=
  match word_tuple w with
  | Ok (l, t, m, e) =>
      JObj [("letter", l); ("word_text", t); ("meaning", m); ("example", e)]
  | Raise _ => JNull
  end.

(** The payload of [POST /api/sessions] as [save_session_data] reads and
    binds it: mode, score, one row of values per word, and the quiz. *)
Definition read_session (data : json)
  : res (value * value * list (value * value * value * value) * json) :=
  mode ← getitem data "mode";
  score_percent ← getitem data "scorePercent";
  mode' ← bind_param mode;
  score_percent' ← bind_param score_percent;
  words ← getitem data "words";
  items ← iter words;
  tuples ← word_tuples items;
  rows ← mapM bind_tuple tuples;
  quiz ← getitem data "quiz";
  Ok (mode', score_percent', rows, quiz).

(** "That user's sessions in that mode". *)
Definition tier_sessions (db : database) (user_id : Z) (level : string) : list session_row :=
  filter (fun r => s_user_id r = user_id /\ s_mode r = Text level) (session_table db).



(** A credential of a registration request: absent, or a text. *)
Definition credential_json (c : option string) : json :=
  match c with Some s => JStr s | None => JNull end.

Definition blank (c : option string) : bool :=
  match c with Some s => String.eqb s "" | None => true end.

Section Contracts.
Context {runtime : Runtime}.

(** Registration as section 6 tabulates it, blank credentials counted with
    the missing ones: 400, else 409 for a taken name, else 201 and a new
    user row. *)
Definition register_contract (db : database) (u p : option string)
  : res (Z * json) * database :=
  if blank u || blank p then
    (Ok (400, error_json "Username and password are required."), db)
  else
    let name := default "" u in
    if bool_decide (Text name ∈ map u_username (user_table db)) then
      (Ok (409, error_json ("User " +:+ name +:+ " is already registered.")), db)
    else
      (Ok (201, message_json "Registration successful!"),
       {| user_table :=
            user_table db
            ++ [UserRow (next_rowid (map u_id (user_table db))) (Text name)
                        (Text (generate_password_hash (default "" p)))];
          session_table := session_table db;
          word_table := word_table db;
          quiz_table := quiz_table db |}).

(** The entry of one tier in the tracking statistics. *)
Definition tier_stat (db : database) (user_id : Z) (level : string) : tier_stats :=
  {| average :=
       match sql_avg (map s_score_percent (tier_sessions db user_id level)) with
       | Some a => py_round a
       | None => 0
       end;
     count := Z.of_nat (length (tier_sessions db user_id level)) |}.

(** The stores the application can be in: the empty one, and what a
    registration or a session submission leaves behind (the other routes
    only read). *)
Inductive reachable : database -> Prop :=
  | reachable_empty : reachable empty_database
  | reachable_register db data fs now :
      reachable db -> reachable (snd (serve (register data) db fs now))
  | reachable_save_session db session data fs now :
      reachable db -> reachable (snd (serve (save_session session data) db fs now)).

End Contracts.

(** *** Users and handlers *)

(** What the user table owes itself: names are distinct and never [NULL],
    ids are distinct, and every password is a text. *)
Definition users_ok (db : database) : Prop :=
  NoDup (map u_username (user_table db)) /\
  NoDup (map u_id (user_table db)) /\
  Forall (fun r => u_username r <> Null /\ exists hashed, u_password r = Text hashed)
         (user_table db).

(** The database with one more user. *)
Definition with_user (db : database) (username password : value) : database :=
  {| user_table :=
       user_table db ++ [UserRow (next_rowid (map u_id (user_table db))) username password];
     session_table := session_table db;
     word_table := word_table db;
     quiz_table := quiz_table db |}.

(** [a] is not older than [b]: the order of a listing, newest first. *)
Definition not_older (a b : session_row) : Prop :=
  String.ltb (s_date a) (s_date b) = false.

(** A computation that commits nothing. *)
Definition read_only {A} (m : st connection A) : Prop :=
  forall c, committed (snd (m c)) = committed c.

(** *** Sample responses and services *)

Definition definition_json (text : string) (ex : option string) : json :=
  JObj ([("definition", JStr text)]
        ++ match ex with Some e => [("example", JStr e)] | None => [] end).

Definition meaning_json (part : string) (ds : list json) : json :=
  JObj [("partOfSpeech", JStr part); ("definitions", JArr ds)].

Definition entry_json (w : string) (ms : list json) : json :=
  JArr [JObj [("word", JStr w); ("meanings", JArr ms)]].

(** An entry whose first example sentence happens to be the placeholder
    text, followed by a meaning with another example. *)
Definition placeholder_collision : json :=
  entry_json "echo"
    [meaning_json "noun" [definition_json "A repeated sound." (Some no_example)];
     meaning_json "verb" [definition_json "To repeat." (Some "The hall echoed.")]].

(** An entry whose ['meanings'] field is there but is not a list. *)
Definition null_meanings : json :=
  JArr [JObj [("word", JStr "apple"); ("meanings", JNull)]].

Definition apple_entry : json :=
  entry_json "apple"
    [meaning_json "noun"
       [definition_json "A common, round fruit." None;
        definition_json "A tree bearing it." (Some "We planted an apple.")]].

(** A world in which the candidate source knows two words in "a" and is
    unreachable for every other letter, and the dictionary has an entry for
    "apple" only. *)
Definition sample_net : service :=
  fun _ req =>
    match req with
    | GetDatamuse sp _ _ =>
        if String.eqb sp "a*" then
          Response 200 (JArr [JObj [("word", JStr "aardvarkish"); ("score", JNum 10)];
                              JObj [("word", JStr "apple"); ("score", JNum 9)]])
        else ConnectionFailed
    | GetDictionaryEntry (JStr "apple") => Response 200 apple_entry
    | GetDictionaryEntry _ => Response 404 (JObj [("title", JStr "No Definitions Found")])
    end.

(** A world in which every dictionary entry has a malformed ['meanings']. *)
Definition malformed_net : service :=
  fun _ req =>
    match req with
    | GetDatamuse _ _ _ => Response 200 (JArr [JObj [("word", JStr "apple")]])
    | GetDictionaryEntry _ => Response 200 null_meanings
    end.

(** The same world as [sample_net], with the dictionary deciding on the
    word by comparison. *)
Definition typed_net : service :=
  fun _ req =>
    match req with
    | GetDatamuse sp _ _ =>
        if String.eqb sp "a*" then
          Response 200 (JArr [JObj [("word", JStr "aardvarkish"); ("score", JNum 10)];
                              JObj [("word", JStr "apple"); ("score", JNum 9)]])
        else ConnectionFailed
    | GetDictionaryEntry w =>
        if is_str "apple" w then Response 200 apple_entry
        else Response 404 (JObj [("title", JStr "No Definitions Found")])
    end.

Definition alice : flask_session := Some (Identity 1 (JStr "alice")).

Definition quote : string := String (ascii_of_nat 34) "".

(** A compact JSON printer (no escapes in strings). *)
Fixpoint print_json (v : json) : string :=
  match v with
  | JNull => "null"
  | JBool true => "true"
  | JBool false => "false"
  | JNum n => pretty n
  | JStr s => quote +:+ s +:+ quote
  | JArr items =>
      "[" +:+ (fix go (l : list json) : string :=
                 match l with
                 | [] => ""
                 | [x] => print_json x
                 | x :: rest => print_json x +:+ ", " +:+ go rest
                 end) items +:+ "]"
  | JObj fields =>
      "{" +:+ (fix go (l : list (string * json)) : string :=
                 match l with
                 | [] => ""
                 | [(k, x)] => quote +:+ k +:+ quote +:+ ": " +:+ print_json x
                 | (k, x) :: rest =>
                     quote +:+ k +:+ quote +:+ ": " +:+ print_json x +:+ ", " +:+ go rest
                 end) fields +:+ "}"
  end.

(** The quiz payload of the sample sessions. *)
Definition sample_quiz : json :=
  JArr [JObj [("letter", JStr "A"); ("answer", JStr "Apple"); ("correct", JBool true)];
        JObj [("letter", JStr "B"); ("answer", JStr "Bravo"); ("correct", JBool false)]].

(** A runtime for the examples: [json.loads] reads back the texts the
    examples store, the password hash is a tagged copy, and a text score
    counts as zero. *)
Definition sample_runtime : Runtime :=
  {| json_dumps := print_json;
     json_loads := fun s =>
       if String.eqb s (print_json sample_quiz) then Ok sample_quiz
       else if String.eqb s "[]" then Ok (JArr [])
       else Raise ValueError;
     generate_password_hash := fun s => "pbkdf2:" +:+ s;
     sqlite_numeric := fun _ => 0%Q |}.

(** A password check for the examples, reading the tagged copies of
    [sample_runtime]. *)
Definition sample_checker : PasswordCheck :=
  {| check_password_hash := fun pwhash password =>
       match pwhash, password with
       | JStr hashed, JStr given => Ok (String.eqb hashed ("pbkdf2:" +:+ given))
       | _, _ => Raise AttributeError
       end |}.

Definition word_json (l w : string) : json :=
  JObj [("letter", JStr l); ("word", JStr w);
        ("meaning", JStr ("Meaning of " +:+ w)); ("example", JStr ("Example for " +:+ w))].

(** 26 word records, one per letter, built on the fallback words. *)
Definition sample_words : list json :=
  map (fun l => word_json l (default "" (fallback_words !! l))) ascii_uppercase.

Definition sample_session (mode : string) (score_percent : Z) : json :=
  JObj [("mode", JStr mode); ("scorePercent", JNum score_percent);
        ("words", JArr sample_words); ("quiz", sample_quiz)].

Definition sample_now : string := "2024-05-01 10:30:00".

(** The store after alice registered and saved one beginner session. *)
Definition registered_db : database :=
  snd (serve
         (register (runtime := sample_runtime)
            (JObj [("username", JStr "alice"); ("password", JStr "secret123")]))
         empty_database [] sample_now).

Definition one_session_db : database :=
  snd (serve
         (save_session (runtime := sample_runtime) alice (sample_session "beginner" 80))
         registered_db [] sample_now).

(** The connection on which alice saved that session, after the save. *)
Definition saved_connection : connection :=
  snd (save_session_data (runtime := sample_runtime) 1 (sample_session "beginner" 80)
         (connect registered_db [] sample_now)).

(** The connection on which alice then saved a session in a mode of her
    own, "expert". *)
Definition expert_connection : connection :=
  snd (save_session_data (runtime := sample_runtime) 1 (sample_session "expert" 55)
         (connect one_session_db [] "2024-05-02 09:00:00")).

Definition bob : identity := Identity 2 (JStr "bob").

(** The body alice registers and logs in with. *)
Definition alice_credentials : json :=
  JObj [("username", JStr "alice"); ("password", JStr "secret123")].

(** A registration request that carries both fields, the username empty. *)
Definition blank_registration : list (string * json) :=
  [("username", JStr ""); ("password", JStr "secret123")].

(** ** Dictionary lookup *)

Lemma get_word_details_eq net w h :
  get_word_details net w h =
  (lookup_result w (net h (GetDictionaryEntry w)),
   h ++ [(GetDictionaryEntry w, net h (GetDictionaryEntry w))]).
Proof.
  unfold get_word_details, try_except, bind, requests_get, lift, ret, lookup_result.
  destruct (net h (GetDictionaryEntry w)) as [|status_code body]; simpl; [reflexivity|].
  unfold raise_for_status, error_status; simpl.
  destruct ((400 <=? status_code) && (status_code <? 600)); simpl; [reflexivity|].
  destruct (parse_details w body) as [d|e]; simpl; [reflexivity|].
  destruct (lookup_handled e); reflexivity.
Qed.

(** A lookup never lets a [RequestException] through. *)
Lemma get_word_details_not_request net w h h' :
  get_word_details net w h <> (Raise RequestException, h').
Proof.
  rewrite get_word_details_eq. unfold lookup_result.
  destruct (net h (GetDictionaryEntry w)) as [|status_code body]; [congruence|].
  destruct (error_status status_code); [congruence|].
  destruct (parse_details w body) as [d|e]; [congruence|].
  destruct e; simpl; congruence.
Qed.

Lemma getitem_Ok x k v :
  getitem x k = Ok v -> exists fields, x = JObj fields /\ assoc k fields = Some v.
Proof.
  destruct x; simpl; try discriminate.
  destruct (assoc k fields) eqn:E; intros [= <-]. eauto.
Qed.

(** Subscripting with [0] and then with a key only works on a list whose
    first element is a dict. *)
Lemma getitem0_getitem_Ok x k v :
  (y ← getitem0 x; getitem y k) = Ok v ->
  exists fields rest, x = JArr (JObj fields :: rest) /\ assoc k fields = Some v.
Proof.
  destruct x as [| | |s|items|]; simpl; try discriminate.
  - destruct s; discriminate.
  - destruct items as [|y rest]; simpl; [discriminate|].
    intros (fields & -> & E)%getitem_Ok. eauto.
Qed.

(** Peel the leading step off a computation known to return. *)
Tactic Notation "res_inv" hyp(H) "as" ident(x) ident(E) :=
  unfold mbind, res_bind in H;
  match type of H with
  | match ?m with _ => _ end = Ok _ =>
      destruct m as [x|] eqn:E; [cbv beta iota in H|discriminate H]
  end.

Lemma scan_definitions_Ok items ex e :
  scan_definitions items ex = Ok e ->
  (omap definition_example items = [] /\ e = ex) \/
  head (omap definition_example items) = Some e.
Proof.
  induction items as [|d rest IH]; simpl.
  - intros [= <-]. by left.
  - intros Hscan. res_inv Hscan as has E.
    destruct d as [| | |s|its|fields]; simpl in E; try discriminate;
      injection E as <-.
    + destruct (substring_of "example" s); [discriminate|]. auto.
    + destruct (existsb (is_str "example") its); [discriminate|]. auto.
    + case_bool_decide as Hsome.
      * apply getitem_Ok in Hscan as (? & [= <-] & Ea). right. simpl. by rewrite Ea.
      * simpl. destruct (assoc "example" fields) eqn:Ea; [destruct Hsome; eauto|]. auto.
Qed.

(** Iterating a string or a dict yields strings, none of which carries an
    example. *)
Lemma iter_no_array_examples x items :
  iter x = Ok items -> (forall ds, x <> JArr ds) ->
  omap definition_example items = [].
Proof.
  destruct x as [| | |s|its|fields]; simpl; try discriminate; intros [= <-] Hne.
  - clear Hne. induction s; simpl; auto.
  - by destruct (Hne its).
  - clear Hne. induction fields; simpl; auto.
Qed.

Lemma differs_from_no_example_false e :
  differs_from_no_example e = false -> e = JStr no_example.
Proof.
  destruct e; simpl; try discriminate.
  intros Hs%negb_false_iff%String.eqb_eq. by subst.
Qed.

Lemma scan_meanings_Ok ms e :
  scan_meanings ms (JStr no_example) = Ok e ->
  let exs := omap definition_example (concat (map meaning_definitions ms)) in
  JStr no_example ∉ exs -> e = default (JStr no_example) (head exs).
Proof.
  induction ms as [|m rest IH]; simpl.
  - by intros [= <-].
  - intros Hscan. res_inv Hscan as a E. res_inv Hscan as a0 E0. res_inv Hscan as a1 E1.
    apply getitem_Ok in E as (fields & -> & Ea). simpl. rewrite Ea.
    rewrite omap_app.
    set (exs_m := omap definition_example (match a with JArr ds => ds | _ => [] end)).
    assert (Hm : (exs_m = [] /\ a1 = JStr no_example) \/ head exs_m = Some a1).
    { subst exs_m.
      destruct (scan_definitions_Ok _ _ _ E1) as [[Hnil ->]|Hhead].
      - left. split; [|done]. destruct a; simpl in *; try done.
        by injection E0 as <-.
      - destruct a as [| | |s|ds|fs]; simpl in E0; try discriminate.
        + rewrite (iter_no_array_examples (JStr s) a0) in Hhead; done.
        + injection E0 as <-. by right.
        + rewrite (iter_no_array_examples (JObj fs) a0) in Hhead; done. }
    clearbody exs_m.
    destruct (differs_from_no_example a1) eqn:Hd.
    + injection Hscan as <-. intros _.
      destruct Hm as [[_ ->]|Hhead]; [done|].
      destruct exs_m as [|x xs]; simpl in *; congruence.
    + apply differs_from_no_example_false in Hd as ->.
      destruct Hm as [[-> _]|Hhead]; simpl.
      * by apply IH.
      * intros Hnot. destruct Hnot.
        destruct exs_m as [|x xs]; simpl in *; [done|].
        injection Hhead as ->. apply list_elem_of_here.
Qed.

(** A lookup that succeeds found the whole path to the first definition, and
    its three fields are the ones section 4.1 names, provided no example
    sentence of the response is itself the placeholder text. *)
Lemma parse_details_Ok w body d :
  parse_details w body = Ok d ->
  has_expected_fields body = true /\
  first_meaning_text body = Some (meaning d) /\
  capitalize_value w = Ok (word d) /\
  letter d = None /\
  (JStr no_example ∉ examples body -> example d = first_example body).
Proof.
  unfold parse_details. intros Hp.
  res_inv Hp as data E. res_inv Hp as meanings Em.
  assert (Hm : (y ← getitem0 body; getitem y "meanings") = Ok meanings) by (by rewrite E).
  apply getitem0_getitem_Ok in Hm as (entry & rest & -> & Hmeanings).
  simpl in E. injection E as <-.
  res_inv Hp as m0 E0. res_inv Hp as defs Ed.
  assert (Hd : (y ← getitem0 meanings; getitem y "definitions") = Ok defs) by (by rewrite E0).
  apply getitem0_getitem_Ok in Hd as (m & ms & -> & Hdefs).
  simpl in E0. injection E0 as <-.
  res_inv Hp as d0 E1. res_inv Hp as text Et.
  assert (Ht : (y ← getitem0 defs; getitem y "definition") = Ok text) by (by rewrite E1).
  apply getitem0_getitem_Ok in Ht as (d1 & ds & -> & Htext).
  simpl in E1. injection E1 as <-.
  res_inv Hp as items Ei. simpl in Ei. injection Ei as <-.
  res_inv Hp as ex Ex. res_inv Hp as cap Ec. injection Hp as <-.
  assert (Hem : entry_meanings (JArr (JObj entry :: rest)) = JObj m :: ms)
    by (simpl; by rewrite Hmeanings).
  split; [simpl; by rewrite Hmeanings, Hdefs, Htext|].
  split; [unfold first_meaning_text; rewrite Hem; simpl; by rewrite Hdefs|].
  split; [done|]. split; [done|].
  unfold first_example, examples. rewrite Hem.
  apply (scan_meanings_Ok _ _ Ex).
Qed.

(** An absent field on the path to the first definition surfaces as one of
    the two exceptions the lookup handles. *)
Lemma field_absent_handled w body :
  field_absent body = true ->
  exists e, parse_details w body = Raise e /\ lookup_handled e = true.
Proof.
  unfold field_absent, parse_details.
  destruct body as [| | | |[|[| | | | |entry] rest]|]; try discriminate; simpl;
    [eauto|].
  destruct (assoc "meanings" entry) as [[| | | |[|[| | | | |m] ms]|]|];
    try discriminate; simpl; eauto.
  destruct (assoc "definitions" m) as [[| | | |[|[| | | | |d] ds]|]|];
    try discriminate; simpl; eauto.
  destruct (assoc "definition" d); try discriminate; simpl; eauto.
Qed.

Lemma lookup_failure_result w r :
  lookup_failure r = true -> lookup_result w r = Ok None.
Proof.
  destruct r as [|status_code body]; simpl; [done|].
  destruct (error_status status_code); simpl; [done|].
  intros (e & -> & ->)%(field_absent_handled w). done.
Qed.

(** ** The word-set builder *)

Lemma failed_lookups_app net ws1 ws2 h h1 h2 :
  failed_lookups net ws1 h h1 -> failed_lookups net ws2 h1 h2 ->
  failed_lookups net (ws1 ++ ws2) h h2.
Proof.
  induction 1; simpl; [done|]. intros. econstructor; eauto.
Qed.

(** The probe loop either raises, or finds a record stamped with the letter,
    or has seen every lookup fail. *)
Lemma probe_candidates_None net l items h h' :
  probe_candidates net l items h = (Ok None, h') ->
  exists ws, Forall2 (fun word_data w => getitem word_data "word" = Ok w) items ws /\
             failed_lookups net ws h h'.
Proof.
  revert h. induction items as [|word_data rest IH]; simpl; intros h.
  - unfold ret. intros [= <-]. exists []. split; constructor.
  - unfold bind at 1, lift.
    destruct (getitem word_data "word") as [w|e] eqn:Hw; [|discriminate].
    unfold bind at 1.
    destruct (get_word_details net w h) as [[[d|]|e] h1] eqn:Hd;
      [discriminate| |discriminate].
    intros (ws & Hall & Hfail)%IH.
    exists (w :: ws). split; [by constructor|]. econstructor; eauto.
Qed.

Lemma probe_candidates_Some net l items h d h' :
  probe_candidates net l items h = (Ok (Some d), h') -> letter d = Some l.
Proof.
  revert h. induction items as [|word_data rest IH]; simpl; intros h.
  - discriminate.
  - unfold bind at 1, lift.
    destruct (getitem word_data "word") as [w|e]; [|discriminate].
    unfold bind at 1.
    destruct (get_word_details net w h) as [[[d0|]|e] h1]; [| |discriminate].
    + unfold ret. by intros [= <- <-].
    + apply IH.
Qed.

Lemma probe_candidates_not_request net l items h h' :
  probe_candidates net l items h <> (Raise RequestException, h').
Proof.
  revert h. induction items as [|word_data rest IH]; simpl; intros h.
  - discriminate.
  - unfold bind at 1, lift.
    destruct (getitem word_data "word") as [w|e] eqn:Hw.
    + unfold bind at 1.
      destruct (get_word_details net w h) as [[[d0|]|e] h1] eqn:Hd.
      * discriminate.
      * apply IH.
      * intros [= -> <-]. by apply get_word_details_not_request in Hd.
    + destruct word_data; simpl in Hw; try congruence.
      destruct (assoc "word" fields); congruence.
Qed.

(** The [try] block of one letter, read off the reply of the candidate
    source. *)
Lemma query_candidates_eq net p l h :
  let r := net h (datamuse_request p l) in
  let h1 := h ++ [(datamuse_request p l, r)] in
  query_candidates net p l h =
  match r with
  | ConnectionFailed => (Ok None, h1)
  | Response status_code body =>
      if error_status status_code then (Ok None, h1)
      else if truthy body then
        match body with
        | JArr items => probe_candidates net l (take 5 items) h1
        | _ => (Raise TypeError, h1)
        end
      else (Ok None, h1)
  end.
Proof.
  intros r h1. subst h1.
  unfold query_candidates, try_except, bind at 1, requests_get.
  fold (datamuse_request p l). fold r.
  destruct r as [|status_code body]; simpl; [done|].
  unfold bind, lift, raise_for_status. simpl. fold (error_status status_code).
  destruct (error_status status_code); simpl; [done|].
  destruct (truthy body) eqn:Ht; [|done].
  destruct body as [|b|n|s|items|fields]; simpl; try done.
  - destruct s as [|c s]; [discriminate|]. done.
  - destruct (probe_candidates net l (take 5 items) _) as [[o|e] h2] eqn:Hp; [done|].
    destruct e; simpl; try done.
    by apply probe_candidates_not_request in Hp.
Qed.

Lemma letter_step_eq net p ws l h :
  letter_step net p ws l h =
  match query_candidates net p l h with
  | (Ok (Some d), h1) => (Ok (ws ++ [d]), h1)
  | (Ok None, h1) =>
      match fallback_words !! l with
      | None => (Raise KeyError, h1)
      | Some fallback =>
          match get_word_details net (JStr fallback) h1 with
          | (Ok (Some d), h2) => (Ok (ws ++ [set_letter l d]), h2)
          | (Ok None, h2) => (Ok ws, h2)
          | (Raise e, h2) => (Raise e, h2)
          end
      end
  | (Raise e, h1) => (Raise e, h1)
  end.
Proof.
  unfold letter_step, bind at 1.
  destruct (query_candidates net p l h) as [[[d|]|e] h1]; try done.
  unfold bind at 1, lift, subscript.
  destruct (fallback_words !! l) as [fallback|]; [|done].
  unfold bind.
  by destruct (get_word_details net (JStr fallback) h1) as [[[d|]|e] h2].
Qed.

Lemma fallback_words_total l :
  l ∈ ascii_uppercase -> exists fallback, fallback_words !! l = Some fallback.
Proof.
  unfold ascii_uppercase. rewrite !elem_of_cons, elem_of_nil.
  intros H. repeat (destruct H as [->|H]; [vm_compute; eauto|]). done.
Qed.

Lemma source_empty_query net p l h :
  source_empty (net h (datamuse_request p l)) = true ->
  query_candidates net p l h =
  (Ok None, h ++ [(datamuse_request p l, net h (datamuse_request p l))]).
Proof.
  intros He. rewrite query_candidates_eq.
  destruct (net h (datamuse_request p l)) as [|status_code body]; simpl in *; [done|].
  destruct (error_status status_code); simpl in *; [done|].
  by destruct body as [| | | |[|]|].
Qed.

Lemma candidates_length r : (length (candidates r) <= 5)%nat.
Proof.
  destruct r as [|status_code body]; simpl; [lia|].
  destruct (error_status status_code); simpl; [lia|].
  destruct body; simpl; try lia. rewrite length_take. lia.
Qed.

(** When the [try] block ends without a record, what it probed was the
    [candidates] of the reply, and each lookup failed. *)
Lemma query_candidates_None net p l h h' :
  query_candidates net p l h = (Ok None, h') ->
  exists ws,
    Forall2 (fun word_data w => getitem word_data "word" = Ok w)
            (candidates (net h (datamuse_request p l))) ws /\
    failed_lookups net ws (h ++ [(datamuse_request p l, net h (datamuse_request p l))]) h'.
Proof.
  rewrite query_candidates_eq.
  destruct (net h (datamuse_request p l)) as [|status_code body]; simpl.
  - intros [= <-]. exists []. split; constructor.
  - destruct (error_status status_code).
    { intros [= <-]. exists []. split; constructor. }
    destruct (truthy body) eqn:Ht.
    + destruct body; try discriminate. apply probe_candidates_None.
    + intros [= <-]. exists []. split; [|constructor].
      destruct body as [| | | |[|]|]; try constructor; discriminate.
Qed.

Lemma query_candidates_Some net p l h d h' :
  query_candidates net p l h = (Ok (Some d), h') -> letter d = Some l.
Proof.
  rewrite query_candidates_eq.
  destruct (net h (datamuse_request p l)) as [|status_code body]; simpl; [done|].
  destruct (error_status status_code); [done|].
  destruct (truthy body); [|done].
  destruct body; try done. apply probe_candidates_Some.
Qed.

(** One iteration appends nothing or one record carrying its letter. *)
Lemma letter_step_appends net p ws l h ws' h' :
  letter_step net p ws l h = (Ok ws', h') ->
  ws' = ws \/ exists d, ws' = ws ++ [d] /\ letter d = Some l.
Proof.
  rewrite letter_step_eq.
  destruct (query_candidates net p l h) as [[[d|]|e] h1] eqn:Hq; [| |done].
  - intros [= <- <-]. right. exists d. split; [done|].
    by apply query_candidates_Some in Hq.
  - destruct (fallback_words !! l) as [fallback|]; [|done].
    destruct (get_word_details net (JStr fallback) h1) as [[[d|]|e] h2]; [| |done].
    + intros [= <- <-]. right. by exists (set_letter l d).
    + intros [= <- <-]. by left.
Qed.

Lemma for_letters_sublist net p ls ws h ws' h' :
  for_letters net p ls ws h = (Ok ws', h') ->
  exists added ls',
    ws' = ws ++ added /\ map letter added = map Some ls' /\ ls' `sublist_of` ls.
Proof.
  revert ws h. induction ls as [|l rest IH]; simpl; intros ws h.
  - unfold ret. intros [= <- <-]. exists [], []. by rewrite app_nil_r.
  - unfold bind at 1.
    destruct (letter_step net p ws l h) as [[ws1|e] h1] eqn:Hstep; [|done].
    intros (added & ls' & -> & Hletters & Hsub)%IH.
    apply letter_step_appends in Hstep as [->|(d & -> & Hd)].
    + exists added, ls'. repeat split; [done|]. by apply sublist_cons.
    + exists (d :: added), (l :: ls'). rewrite <- app_assoc. simpl.
      repeat split; [by rewrite Hd, Hletters|]. by apply sublist_skip.
Qed.

Lemma details_json_letter d l :
  letter d = Some l -> getitem (details_json d) "letter" = Ok (JStr l).
Proof. unfold details_json. intros ->. reflexivity. Qed.

Lemma ascii_uppercase_NoDup : NoDup ascii_uppercase.
Proof. apply (bool_decide_unpack _). by vm_compute. Qed.

(** ** Claims about the word-set builder *)

(** C1, as stated with the promise of section 4.3, fails: in a world where
    only the letter A has a word that can be looked up, the build returns
    one record, not 26. *)
Lemma get_words_fewer_than_26 :
  exists items,
    fst (get_words sample_net alice "beginner" []) = Ok (200, JArr items) /\
    length items = 1%nat /\ length items <> 26%nat.
Proof. eexists. split; [vm_compute; reflexivity|]. split; [reflexivity|discriminate]. Qed.

(** The letters of an answer: whatever the level, the ['letter'] fields of
    the records, read in order, are a subsequence of A..Z (so they are
    uppercase letters, in alphabetical order, without repetition), and
    there are at most 26 records. *)
Lemma get_words_letters net ident level h status body h' :
  get_words net (Some ident) level h = (Ok (status, body), h') ->
  status = 200 /\
  exists items ls,
    body = JArr items /\
    Forall2 (fun item l => getitem item "letter" = Ok (JStr l)) items ls /\
    ls `sublist_of` ascii_uppercase /\
    NoDup ls /\ (length items <= 26)%nat.
Proof.
  unfold get_words, build_words, bind, lift, ret.
  destruct (level_params level) as [p|e]; [|discriminate].
  destruct (for_letters net p ascii_uppercase [] h) as [[ws|e] h1] eqn:Hloop;
    [|discriminate].
  intros [= <- <- <-]. split; [done|].
  apply for_letters_sublist in Hloop as (added & ls & -> & Hletters & Hsub).
  exists (map details_json added), ls. repeat split; [| done | |].
  - clear Hsub. revert ls Hletters.
    induction added as [|d added IH]; intros [|l ls]; simpl; try discriminate.
    + constructor.
    + intros [= Hd Hrest]. constructor; [by apply details_json_letter|by apply IH].
  - exact (sublist_NoDup _ _ ascii_uppercase_NoDup Hsub).
  - rewrite length_map. apply (f_equal length) in Hletters.
    rewrite !length_map in Hletters. rewrite Hletters.
    by apply sublist_length in Hsub.
Qed.

(** The contract of section 4.3 speaks of exactly 26 records; the builder
    returns fewer whenever a letter has no word that can be looked up, down
    to none at all. *)
Example get_words_may_be_empty :
  fst (get_words (fun _ _ => ConnectionFailed) alice "proficient" []) = Ok (200, JArr []).
Proof. vm_compute. reflexivity. Qed.

(** An unknown level is served with the beginner parameters. *)
Example level_params_default : level_params "expert" = level_params "beginner".
Proof. vm_compute. reflexivity. Qed.

Lemma failed_lookups_app_inv net ws1 ws2 h h2 :
  failed_lookups net (ws1 ++ ws2) h h2 ->
  exists h1, failed_lookups net ws1 h h1 /\ failed_lookups net ws2 h1 h2.
Proof.
  revert h. induction ws1 as [|w ws1 IH]; simpl; intros h Hf.
  - exists h. split; [constructor|done].
  - inversion Hf as [|? ? ? hm ? Hw Hrest]; subst.
    apply IH in Hrest as (h1 & Hf1 & Hf2).
    exists h1. split; [econstructor; eauto|done].
Qed.

Lemma failed_lookups_probe net l items ws h h' :
  Forall2 (fun word_data w => getitem word_data "word" = Ok w) items ws ->
  failed_lookups net ws h h' ->
  probe_candidates net l items h = (Ok None, h').
Proof.
  intros Hall. revert h. induction Hall as [|word_data w items ws Hw _ IH]; intros h Hf.
  - by inversion Hf.
  - inversion Hf as [|? ? ? h1 ? Hd Hrest]; subst. simpl.
    unfold bind at 1, lift. rewrite Hw. unfold bind at 1. rewrite Hd. by apply IH.
Qed.

Lemma query_candidates_list net p l h items :
  net h (datamuse_request p l) = Response 200 (JArr items) ->
  query_candidates net p l h =
  probe_candidates net l (take 5 items)
    (h ++ [(datamuse_request p l, Response 200 (JArr items))]).
Proof.
  intros Hr. rewrite query_candidates_eq, Hr. simpl. by destruct items.
Qed.

(** One iteration of the loop, for a letter L of the alphabet: when the
    candidate source comes back empty (an empty list, or a transport or
    service failure) the very next call is the dictionary lookup of L's
    fallback word, and its outcome decides whether L gets a record; and
    when the iteration ends without a record, then every candidate that
    was probed (the first five at most, in the order of the reply) was
    looked up and failed, and the fallback word was looked up after them
    and failed too.  Conversely, on a reply that is a list, those failures
    do leave L without a record. *)
Lemma letter_step_fallback net p ws l h :
  l ∈ ascii_uppercase ->
  let r := net h (datamuse_request p l) in
  let h1 := h ++ [(datamuse_request p l, r)] in
  exists fallback,
    fallback_words !! l = Some fallback /\
    (source_empty r = true ->
       letter_step net p ws l h =
       match get_word_details net (JStr fallback) h1 with
       | (Ok (Some d), h2) => (Ok (ws ++ [set_letter l d]), h2)
       | (Ok None, h2) => (Ok ws, h2)
       | (Raise e, h2) => (Raise e, h2)
       end) /\
    (forall h',
       letter_step net p ws l h = (Ok ws, h') ->
       exists probed,
         Forall2 (fun word_data w => getitem word_data "word" = Ok w) (candidates r) probed /\
         (length probed <= 5)%nat /\
         failed_lookups net (probed ++ [JStr fallback]) h1 h') /\
    (forall items probed h',
       r = Response 200 (JArr items) ->
       Forall2 (fun word_data w => getitem word_data "word" = Ok w) (candidates r) probed ->
       failed_lookups net (probed ++ [JStr fallback]) h1 h' ->
       letter_step net p ws l h = (Ok ws, h')).
Proof.
  intros (fallback & Hfb)%fallback_words_total r h1.
  exists fallback. split; [done|]. split; [|split].
  - intros He. rewrite letter_step_eq, source_empty_query by done. by rewrite Hfb.
  - intros h'. rewrite letter_step_eq.
    destruct (query_candidates net p l h) as [[[d|]|e] hq] eqn:Hq; [| |done].
    { intros [= Hws _]. apply (f_equal length) in Hws.
      rewrite length_app in Hws. simpl in Hws. lia. }
    rewrite Hfb.
    destruct (get_word_details net (JStr fallback) hq) as [[[d|]|e] h2] eqn:Hd; [| |done].
    { intros [= Hws _]. apply (f_equal length) in Hws.
      rewrite length_app in Hws. simpl in Hws. lia. }
    intros [= <-].
    apply query_candidates_None in Hq as (probed & Hall & Hfail).
    exists probed. split; [done|]. split.
    + rewrite <- (Forall2_length _ _ _ Hall). apply candidates_length.
    + eapply failed_lookups_app; [done|]. econstructor; [done|constructor].
  - intros items probed h' Hr Hall (hq & Hprobed & Hfallback)%failed_lookups_app_inv.
    inversion Hfallback as [|? ? ? h2 ? Hd Hnil]; subst. inversion Hnil; subst.
    unfold h1, r in *. clear h1 r. rewrite Hr in Hall, Hprobed.
    rewrite letter_step_eq, (query_candidates_list _ _ _ _ _ Hr).
    rewrite (failed_lookups_probe _ _ _ _ _ _ Hall Hprobed). by rewrite Hfb, Hd.
Qed.

Lemma letter_step_fallback_witness :
  exists fallback,
    fallback_words !! "B" = Some fallback /\
    (source_empty (sample_net [] (datamuse_request (Params "f" 1000) "B")) = true ->
       letter_step sample_net (Params "f" 1000) [] "B" [] =
       match get_word_details sample_net (JStr fallback)
               ([] ++ [(datamuse_request (Params "f" 1000) "B",
                        sample_net [] (datamuse_request (Params "f" 1000) "B"))]) with
       | (Ok (Some d), h2) => (Ok ([] ++ [set_letter "B" d]), h2)
       | (Ok None, h2) => (Ok [], h2)
       | (Raise e, h2) => (Raise e, h2)
       end).
Proof.
  destruct (letter_step_fallback sample_net (Params "f" 1000) [] "B" [])
    as (fallback & Hfb & Hempty & _).
  - apply (bool_decide_unpack _). vm_compute. exact I.
  - exists fallback. split; [exact Hfb|exact Hempty].
Defined.

(** The degraded case does occur: with no usable candidate and a failing
    fallback lookup the letter is skipped, after the candidates and the
    fallback word were looked up in order. *)
Example letter_step_skips :
  let net : service := fun _ req =>
    match req with
    | GetDatamuse _ _ _ =>
        Response 200 (JArr [JObj [("word", JStr "qat")]; JObj [("word", JStr "qi")]])
    | GetDictionaryEntry _ => ConnectionFailed
    end in
  letter_step net (Params "f" 100) [] "Q" [] =
  (Ok [],
   [(GetDatamuse "q*" "f" 100,
     Response 200 (JArr [JObj [("word", JStr "qat")]; JObj [("word", JStr "qi")]]));
    (GetDictionaryEntry (JStr "qat"), ConnectionFailed);
    (GetDictionaryEntry (JStr "qi"), ConnectionFailed);
    (GetDictionaryEntry (JStr "Quest"), ConnectionFailed)]).
Proof. vm_compute. reflexivity. Qed.

(** No more than five candidates are probed, and probing stops at the first
    lookup that succeeds. *)
Example letter_step_stops_at_success :
  let words := map (fun w => JObj [("word", JStr w)])
                   ["aa"; "ab"; "apple"; "ad"; "ae"; "af"; "ag"] in
  let net : service := fun _ req =>
    match req with
    | GetDatamuse _ _ _ => Response 200 (JArr words)
    | GetDictionaryEntry (JStr "apple") => Response 200 apple_entry
    | GetDictionaryEntry _ => Response 404 JNull
    end in
  map fst (snd (letter_step net (Params "f" 1000) [] "A" [])) =
    [GetDatamuse "a*" "f" 1000; GetDictionaryEntry (JStr "aa");
     GetDictionaryEntry (JStr "ab"); GetDictionaryEntry (JStr "apple")] /\
  map fst (snd (letter_step
                  (fun h req =>
                     match req with
                     | GetDictionaryEntry _ => Response 404 JNull
                     | _ => net h req
                     end)
                  (Params "f" 1000) [] "A" [])) =
    [GetDatamuse "a*" "f" 1000; GetDictionaryEntry (JStr "aa");
     GetDictionaryEntry (JStr "ab"); GetDictionaryEntry (JStr "apple");
     GetDictionaryEntry (JStr "ad"); GetDictionaryEntry (JStr "ae");
     GetDictionaryEntry (JStr "Apple")].
Proof. vm_compute. split; reflexivity. Qed.

(** When the probe loop finds a record, the candidates before the one that
    succeeded were looked up in order and failed, and nothing was looked up
    after it. *)
Lemma probe_candidates_found net l items h d h' :
  probe_candidates net l items h = (Ok (Some d), h') ->
  exists before word_data after ws w d0 h1,
    items = before ++ word_data :: after /\
    Forall2 (fun word_data w => getitem word_data "word" = Ok w) before ws /\
    failed_lookups net ws h h1 /\
    getitem word_data "word" = Ok w /\
    get_word_details net w h1 = (Ok (Some d0), h') /\
    d = set_letter l d0.
Proof.
  revert h. induction items as [|word_data rest IH]; simpl; intros h; [discriminate|].
  unfold bind at 1, lift.
  destruct (getitem word_data "word") as [w|e] eqn:Hw; [|discriminate].
  unfold bind at 1.
  destruct (get_word_details net w h) as [[[d0|]|e] h1] eqn:Hd; [| |discriminate].
  - unfold ret. intros [= <- <-].
    exists [], word_data, rest, [], w, d0, h. repeat split; try done; constructor.
  - intros (before & wd & after & ws & w' & d0 & h2 & -> & Hall & Hfail & Hw' & Hd' & ->)%IH.
    exists (word_data :: before), wd, after, (w :: ws), w', d0, h2.
    repeat split; try done; [by constructor|econstructor; eauto].
Qed.

(** In a tame world the probe loop, one letter and the whole build all
    return. *)
Lemma probe_candidates_returns net l items h :
  tame net -> forallb candidate_ok items = true ->
  exists found h', probe_candidates net l items h = (Ok found, h').
Proof.
  intros [_ Hdict]. revert h. induction items as [|word_data rest IH]; simpl; intros h.
  - intros _. by exists None, h.
  - intros [Hc Hrest]%andb_prop. unfold candidate_ok in Hc.
    unfold bind at 1, lift.
    destruct (getitem word_data "word") as [[| | |w| |]|e]; try discriminate.
    unfold bind at 1. rewrite get_word_details_eq.
    destruct (Hdict h w) as [[d|] ->]; [by eexists _, _|]. by apply IH.
Qed.

Lemma letter_step_returns net p ws l h :
  tame net -> l ∈ ascii_uppercase ->
  exists ws' h', letter_step net p ws l h = (Ok ws', h').
Proof.
  intros Htame (fallback & Hfb)%fallback_words_total.
  assert (Hq : exists found h1, query_candidates net p l h = (Ok found, h1)).
  { rewrite query_candidates_eq.
    pose proof (proj1 Htame h (lower l +:+ "*") (md p) (max p)) as Hsrc.
    fold (datamuse_request p l) in Hsrc.
    destruct (net h (datamuse_request p l)) as [|status_code body]; simpl in *;
      [by eexists _, _|].
    destruct (error_status status_code); simpl in *; [by eexists _, _|].
    destruct body as [| | | |items|]; try discriminate.
    destruct items as [|item items]; cbn [truthy]; [by eexists _, _|].
    apply probe_candidates_returns; [done|].
    rewrite <- (take_drop 5 (item :: items)), forallb_app in Hsrc.
    by apply andb_prop in Hsrc as [? _]. }
  destruct Hq as (found & h1 & Hq). rewrite letter_step_eq, Hq.
  destruct found as [d|]; [by eexists _, _|]. rewrite Hfb, get_word_details_eq.
  destruct Htame as [_ Hdict]. by destruct (Hdict h1 fallback) as [[d|] ->]; eexists _, _.
Qed.

Lemma get_words_returns net session level h :
  tame net -> exists status body h', get_words net session level h = (Ok (status, body), h').
Proof.
  intros Htame. unfold get_words. destruct session as [ident|]; [|by eexists _, _, _].
  unfold build_words, bind at 1, bind at 1, lift.
  assert (Hp : exists p, level_params level = Ok p).
  { unfold level_params, subscript.
    assert (Hb : difficulty_params !! "beginner" = Some (Params "f" 1000))
      by (vm_compute; reflexivity).
    rewrite Hb. by eexists. }
  destruct Hp as [p ->].
  assert (Hloop : forall ls ws h0, ls ⊆ ascii_uppercase ->
            exists ws' h', for_letters net p ls ws h0 = (Ok ws', h')).
  { induction ls as [|l ls IH]; intros ws h0 Hsub; simpl; [by eexists _, _|].
    unfold bind at 1.
    destruct (letter_step_returns net p ws l h0 Htame) as (ws1 & h1 & ->).
    { apply Hsub. left. }
    apply IH. intros x Hx. apply Hsub. by right. }
  destruct (Hloop ascii_uppercase [] h) as (ws & h' & ->); [done|].
  by eexists _, _, _.
Qed.

(** A world in which nothing can be reached is tame. *)
Example unreachable_world_tame : tame (fun _ _ => ConnectionFailed).
Proof. split; [done|]. intros h w. by exists None. Qed.

(** ** One build, letter by letter *)

Lemma omap_cons_option_list {A B} (f : A -> option B) x l :
  omap f (x :: l) = option_list (f x) ++ omap f l.
Proof. simpl. by destruct (f x). Qed.

(** What one iteration appends does not depend on what was appended
    before it. *)
Lemma letter_step_any net p ws l h ws' h' :
  letter_step net p ws l h = (Ok ws', h') ->
  exists o,
    ws' = ws ++ option_list o /\
    forall ws0, letter_step net p ws0 l h = (Ok (ws0 ++ option_list o), h').
Proof.
  rewrite letter_step_eq.
  destruct (query_candidates net p l h) as [[[d|]|e] h1] eqn:Hq; [| |done].
  - intros [= <- <-]. exists (Some d). split; [done|].
    intros ws0. by rewrite letter_step_eq, Hq.
  - destruct (fallback_words !! l) as [fallback|] eqn:Hfb; [|done].
    destruct (get_word_details net (JStr fallback) h1) as [[[d|]|e] h2] eqn:Hd; [| |done].
    + intros [= <- <-]. exists (Some (set_letter l d)). split; [done|].
      intros ws0. by rewrite letter_step_eq, Hq, Hfb, Hd.
    + intros [= <- <-]. exists None. split; [by rewrite app_nil_r|].
      intros ws0. rewrite letter_step_eq, Hq, Hfb, Hd. by rewrite app_nil_r.
Qed.

(** An iteration that returns went as section 4.3 says. *)
Lemma letter_step_outcome net p ws l h o h' :
  l ∈ ascii_uppercase ->
  letter_step net p ws l h = (Ok (ws ++ option_list o), h') ->
  letter_outcome net p l h o h'.
Proof.
  intros (fallback & Hfb)%fallback_words_total. rewrite letter_step_eq.
  destruct (query_candidates net p l h) as [[[d|]|e] h1] eqn:Hq; [| |done].
  - intros [= Ho <-]. apply app_inv_head in Ho. destruct o as [d'|]; [|done].
    injection Ho as <-. revert Hq. rewrite query_candidates_eq.
    destruct (net h (datamuse_request p l)) as [|status_code body] eqn:Hr; [done|].
    destruct (error_status status_code) eqn:Hstatus; [done|].
    destruct (truthy body); [|done]. destruct body as [| | | |items|]; try done.
    intros (before & wd & after & tried & w & d0 & hb & Hitems & Hall & Hfail & Hw & Hd & ->)
      %probe_candidates_found.
    eapply (candidate_found net p l h before wd after tried w d0 hb); rewrite ?Hr; try done.
    simpl. by rewrite Hstatus.
  - apply query_candidates_None in Hq as (tried & Hall & Hfail). rewrite Hfb.
    destruct (get_word_details net (JStr fallback) h1) as [[[d|]|e] h2] eqn:Hd; [| |done].
    + intros [= Ho <-]. apply app_inv_head in Ho. destruct o as [d'|]; [|done].
      injection Ho as <-. by eapply fallback_found.
    + intros [= Ho <-]. rewrite <- (app_nil_r ws) in Ho at 1. apply app_inv_head in Ho.
      destruct o as [d'|]; [done|].
      eapply letter_omitted; [done..|].
      eapply failed_lookups_app; [done|]. econstructor; [done|constructor].
Qed.

(** When every probed candidate and the fallback word fail, an iteration
    that returns has appended nothing. *)
Lemma letter_step_all_failed net p ws l h ws' h' probed fallback h2 :
  letter_step net p ws l h = (Ok ws', h') ->
  fallback_words !! l = Some fallback ->
  Forall2 (fun word_data w => getitem word_data "word" = Ok w)
          (candidates (net h (datamuse_request p l))) probed ->
  failed_lookups net (probed ++ [JStr fallback])
    (h ++ [(datamuse_request p l, net h (datamuse_request p l))]) h2 ->
  ws' = ws /\ h' = h2.
Proof.
  intros Hstep Hfb Hall (hq & Hprobed & Hfallback)%failed_lookups_app_inv.
  inversion Hfallback as [|? ? ? hm ? Hd Hnil]; subst. inversion Hnil; subst.
  assert (Hq : query_candidates net p l h = (Ok None, hq)).
  { revert Hstep. rewrite letter_step_eq, query_candidates_eq.
    destruct (net h (datamuse_request p l)) as [|status_code body];
      simpl in Hall; [inversion Hall; subst; by inversion Hprobed|].
    destruct (error_status status_code);
      [inversion Hall; subst; by inversion Hprobed|].
    destruct (truthy body) eqn:Htruthy;
      [|destruct body as [| | | |[|item items]|]; try discriminate;
        inversion Hall; subst; by inversion Hprobed].
    destruct body as [| | | |items|]; try done.
    intros _. by apply failed_lookups_probe with probed. }
  revert Hstep. rewrite letter_step_eq, Hq, Hfb, Hd. by intros [= <- <-].
Qed.

(** A build that returns is a chain of slots, one per letter, each of which
    went as section 4.3 says; the records of the slots are what it
    appended. *)
Lemma for_letters_slots net p ls ws h ws' h' :
  Forall (fun l => l ∈ ascii_uppercase) ls ->
  for_letters net p ls ws h = (Ok ws', h') ->
  exists slots,
    map slot_letter slots = ls /\
    chained slots h h' /\
    Forall (slot_outcome net p) slots /\
    Forall (fun s => forall ws0,
              letter_step net p ws0 (slot_letter s) (slot_start s) =
              (Ok (ws0 ++ option_list (slot_record s)), slot_end s)) slots /\
    ws' = ws ++ omap slot_record slots.
Proof.
  intros Hls. revert ws h.
  induction Hls as [|l ls Hl _ IH]; intros ws h; simpl.
  - unfold ret. intros [= <- <-]. exists []. by rewrite app_nil_r.
  - unfold bind at 1.
    destruct (letter_step net p ws l h) as [[ws1|e] h1] eqn:Hstep; [|done].
    intros (slots & Hletters & Hchain & Hout & Hcode & ->)%IH.
    destruct (letter_step_any _ _ _ _ _ _ _ Hstep) as (o & -> & Hany).
    exists (Slot l h h1 o :: slots). simpl. rewrite Hletters.
    split; [done|]. split; [done|]. split; [|split].
    + constructor; [|done]. unfold slot_outcome. simpl.
      by apply (letter_step_outcome net p ws).
    + by constructor.
    + rewrite <- app_assoc. by destruct o.
Qed.

Lemma letter_outcome_letter net p l h d h' :
  letter_outcome net p l h (Some d) h' -> letter d = Some l.
Proof. by inversion 1. Qed.

(** The histories of a chain only grow. *)
Lemma letter_outcome_prefix net p l h o h' :
  letter_outcome net p l h o h' ->
  (h ++ [(datamuse_request p l, net h (datamuse_request p l))]) `prefix_of` h'.
Proof.
  assert (Hfailed : forall ws h1 h2, failed_lookups net ws h1 h2 -> h1 `prefix_of` h2).
  { induction 1 as [|w ws h1 hm h2 Hd _ IH]; [done|].
    rewrite get_word_details_eq in Hd. injection Hd as _ <-.
    etransitivity; [|exact IH]. by apply prefix_app_r. }
  assert (Hlookup : forall w h1 r h2, get_word_details net w h1 = (r, h2) ->
            h1 `prefix_of` h2).
  { intros w h1 r h2. rewrite get_word_details_eq. intros [= _ <-]. by apply prefix_app_r. }
  inversion 1; subst.
  - etransitivity; [by eapply Hfailed|by eapply Hlookup].
  - etransitivity; [by eapply Hfailed|by eapply Hlookup].
  - by eapply Hfailed.
Qed.

Lemma length_omap_le {A B} (f : A -> option B) (l : list A) :
  (length (omap f l) <= length l)%nat.
Proof.
  induction l as [|x l IH]; [done|].
  rewrite omap_cons_option_list, length_app. destruct (f x); simpl length; lia.
Qed.

(** Every slot has a record exactly when there are as many records as
    slots. *)
Lemma length_omap_full {A B} (f : A -> option B) (l : list A) :
  length (omap f l) = length l <-> Forall (fun x => is_Some (f x)) l.
Proof.
  induction l as [|x l IH]; [by split; [constructor|]|].
  pose proof (length_omap_le f l) as Hle.
  rewrite omap_cons_option_list, length_app, Forall_cons, <- IH.
  destruct (f x) as [y|]; simpl length.
  - split; [intros [=]; by split|intros [_ ->]; done].
  - split; [intros; lia|]. by intros [[? [=]] _].
Qed.

(** The records of the slots that have one carry the letters of those
    slots. *)
Lemma slot_records_letters net p slots :
  Forall (slot_outcome net p) slots ->
  Forall2 (fun item l => getitem item "letter" = Ok (JStr l))
          (map details_json (omap slot_record slots))
          (map slot_letter (filter has_record slots)).
Proof.
  induction 1 as [|s slots Hs _ IH]; [constructor|].
  unfold slot_outcome in Hs. rewrite omap_cons_option_list, map_app.
  destruct (slot_record s) as [d|] eqn:Hd.
  - rewrite filter_cons_True by (unfold has_record; by rewrite Hd).
    simpl. constructor; [|done].
    by eapply details_json_letter, letter_outcome_letter.
  - rewrite filter_cons_False by (unfold has_record; rewrite Hd; by intros [? [=]]).
    done.
Qed.

(** C1, amended. Whatever the level, a build that answers has gone through
    one slot per letter A..Z, in the order of the alphabet, each iteration
    beginning with the history the one before it left.  A slot has a
    record exactly when the lookup of one of the letter's first five
    candidates, or else of its fallback word, succeeded, and none when
    they all failed; the answer is the list of those records in the order
    of the slots, each carrying the letter of its slot.  So the letters of
    the answer are a subsequence of A..Z without repetition, and the
    answer has 26 entries when, and only when, every letter has a word
    that could be looked up -- it is shorter, not longer and not out of
    order, by the letters that have none. *)
Theorem get_words_alphabetical net ident level h status body h' :
  get_words net (Some ident) level h = (Ok (status, body), h') ->
  status = 200 /\
  exists p slots items ls,
    level_params level = Ok p /\
    map slot_letter slots = ascii_uppercase /\
    chained slots h h' /\
    Forall (slot_outcome net p) slots /\
    body = JArr items /\
    items = map details_json (omap slot_record slots) /\
    ls = map slot_letter (filter has_record slots) /\
    Forall2 (fun item l => getitem item "letter" = Ok (JStr l)) items ls /\
    ls `sublist_of` ascii_uppercase /\
    NoDup ls /\
    (length items <= 26)%nat /\
    (length items = 26%nat <-> Forall has_record slots).
Proof.
  unfold get_words, build_words, bind, lift, ret.
  destruct (level_params level) as [p|e]; [|discriminate].
  destruct (for_letters net p ascii_uppercase [] h) as [[ws|e] h1] eqn:Hloop;
    [|discriminate].
  intros [= <- <- <-]. split; [done|].
  apply for_letters_slots in Hloop as (slots & Hletters & Hchain & Hout & _ & ->);
    [|by apply Forall_forall].
  assert (Hlen : length slots = 26%nat).
  { apply (f_equal length) in Hletters. by rewrite length_map in Hletters. }
  assert (Hsub : map slot_letter (filter has_record slots) `sublist_of` ascii_uppercase).
  { rewrite <- Hletters. apply (fmap_sublist slot_letter), sublist_filter. }
  exists p, slots, (map details_json (omap slot_record slots)),
    (map slot_letter (filter has_record slots)).
  repeat split; try done.
  - by apply (slot_records_letters net p).
  - exact (sublist_NoDup _ _ ascii_uppercase_NoDup Hsub).
  - rewrite length_map, <- Hlen. apply length_omap_le.
  - rewrite length_map, <- Hlen. by intros ?%length_omap_full.
  - rewrite length_map, <- Hlen. intros Hall. by apply length_omap_full.
Qed.

Lemma NoDup_map_eq {A B} (f : A -> B) (l : list A) x y :
  NoDup (map f l) -> x ∈ l -> y ∈ l -> f x = f y -> x = y.
Proof.
  induction l as [|z l IH]; simpl; [by intros _ ?%elem_of_nil|].
  intros [Hz Hl]%NoDup_cons [->|Hx]%elem_of_cons [->|Hy]%elem_of_cons Hf; try done.
  - destruct Hz. rewrite Hf. by apply (list_elem_of_fmap_2 f).
  - destruct Hz. rewrite <- Hf. by apply (list_elem_of_fmap_2 f).
  - by apply IH.
Qed.

(** C2. In a build that answers, every letter L of A..Z has its slot, the
    slots following one another in the order of the alphabet, and in the
    slot of L: the candidate source is asked first; the words of its first
    five candidates are looked up in order and the probing stops at the
    first lookup that succeeds, the fallback word being looked up only
    when all of them failed ([slot_outcome]); when the source comes back
    empty (an empty list, or a transport or service failure) the fallback
    lookup is the very next call, and the last of the slot; and L is
    absent from the answer exactly when the lookups of all probed
    candidates (five at most, in the order of the reply) and, after them,
    of the fallback word all failed. *)
Theorem fallback_before_omission net ident level h status body h' :
  get_words net (Some ident) level h = (Ok (status, body), h') ->
  exists p slots items,
    level_params level = Ok p /\
    map slot_letter slots = ascii_uppercase /\
    chained slots h h' /\
    body = JArr items /\
    Forall (fun s =>
      let l := slot_letter s in
      let r := net (slot_start s) (datamuse_request p l) in
      let h1 := slot_start s ++ [(datamuse_request p l, r)] in
      exists fallback,
        fallback_words !! l = Some fallback /\
        slot_outcome net p s /\
        (source_empty r = true ->
           slot_end s =
           h1 ++ [(GetDictionaryEntry (JStr fallback),
                   net h1 (GetDictionaryEntry (JStr fallback)))]) /\
        ((forall item, item ∈ items -> getitem item "letter" <> Ok (JStr l)) <->
         exists probed,
           Forall2 (fun word_data w => getitem word_data "word" = Ok w)
                   (candidates r) probed /\
           (length probed <= 5)%nat /\
           failed_lookups net (probed ++ [JStr fallback]) h1 (slot_end s)) /\
        (forall d, slot_record s = Some d ->
           exists tried w d0 hb,
             failed_lookups net tried h1 hb /\
             get_word_details net w hb = (Ok (Some d0), slot_end s) /\
             d = set_letter l d0))
      slots.
Proof.
  unfold get_words, build_words, bind, lift, ret.
  destruct (level_params level) as [p|e]; [|discriminate].
  destruct (for_letters net p ascii_uppercase [] h) as [[ws|e] h1] eqn:Hloop;
    [|discriminate].
  intros [= <- <- <-].
  apply for_letters_slots in Hloop as (slots & Hletters & Hchain & Hout & Hcode & ->);
    [|by apply Forall_forall].
  exists p, slots, (map details_json (omap slot_record slots)).
  repeat split; try done.
  rewrite Forall_forall in Hout. rewrite Forall_forall in Hcode.
  apply Forall_forall. intros s Hs.
  assert (Hl : slot_letter s ∈ ascii_uppercase).
  { rewrite <- Hletters. by apply (list_elem_of_fmap_2 slot_letter). }
  destruct (fallback_words_total _ Hl) as [fallback Hfb].
  pose proof (Hout s Hs) as Hs_out. pose proof (Hcode s Hs []) as Hs_code.
  exists fallback. split; [done|]. split; [done|]. split; [|split; [split|]].
  - intros Hempty. revert Hs_code.
    rewrite letter_step_eq, source_empty_query by done.
    rewrite Hfb, get_word_details_eq.
    by destruct (lookup_result _ _) as [[d|]|e]; intros [= _ <-].
  - intros Habsent.
    destruct (slot_record s) as [d|] eqn:Hd.
    + destruct (Habsent (details_json d)).
      * apply (list_elem_of_fmap_2 details_json), list_elem_of_omap. by exists s.
      * apply details_json_letter. unfold slot_outcome in Hs_out. rewrite Hd in Hs_out.
        by eapply letter_outcome_letter.
    + unfold slot_outcome in Hs_out. rewrite Hd in Hs_out.
      inversion Hs_out as [| |tried fallback' ? Hall Hfb' Hfail]; subst.
      rewrite Hfb in Hfb'. injection Hfb' as <-.
      exists tried. split; [done|]. split; [|done].
      rewrite <- (Forall2_length _ _ _ Hall). apply candidates_length.
  - intros (probed & Hall & _ & Hfail) item
      (d & -> & (s' & Hs' & Hd')%list_elem_of_omap)%list_elem_of_fmap Hitem.
    destruct (letter_step_all_failed _ _ _ _ _ _ _ _ _ _ Hs_code Hfb Hall Hfail)
      as [Hnone _].
    destruct (slot_record s) as [d0|] eqn:Hd0; [done|].
    pose proof (Hout s' Hs') as Hs'_out. unfold slot_outcome in Hs'_out.
    rewrite Hd' in Hs'_out. apply letter_outcome_letter in Hs'_out.
    rewrite (details_json_letter _ _ Hs'_out) in Hitem. injection Hitem as Heq.
    assert (s' = s).
    { apply (NoDup_map_eq slot_letter slots); [|done..].
      rewrite Hletters. apply ascii_uppercase_NoDup. }
    subst s'. congruence.
  - intros d Hd. unfold slot_outcome in Hs_out. rewrite Hd in Hs_out.
    inversion Hs_out as [before wd after tried w d0 hb ? ? Hall Hfail Hw Hlookup
                        |tried fallback' d0 hb ? Hall Hfail Hfb' Hlookup|]; subst.
    + by exists tried, w, d0, hb.
    + by exists tried, (JStr fallback'), d0, hb.
Qed.

Lemma get_words_alphabetical_witness :
  200 = 200 /\
  exists p slots items ls,
    level_params "beginner" = Ok p /\
    map slot_letter slots = ascii_uppercase /\
    chained slots [] (snd (get_words sample_net alice "beginner" [])) /\
    Forall (slot_outcome sample_net p) slots /\
    JArr [JObj [("word", JStr "Apple"); ("meaning", JStr "A common, round fruit.");
                ("example", JStr "We planted an apple."); ("letter", JStr "A")]]
      = JArr items /\
    items = map details_json (omap slot_record slots) /\
    ls = map slot_letter (filter has_record slots) /\
    Forall2 (fun item l => getitem item "letter" = Ok (JStr l)) items ls /\
    ls `sublist_of` ascii_uppercase /\
    NoDup ls /\
    (length items <= 26)%nat /\
    (length items = 26%nat <-> Forall has_record slots).
Proof.
  apply (get_words_alphabetical sample_net (Identity 1 (JStr "alice")) "beginner" [] 200
           (JArr [JObj [("word", JStr "Apple"); ("meaning", JStr "A common, round fruit.");
                        ("example", JStr "We planted an apple."); ("letter", JStr "A")]])
           (snd (get_words sample_net alice "beginner" []))).
  vm_compute. reflexivity.
Defined.

Lemma fallback_before_omission_witness :
  exists p slots items,
    level_params "beginner" = Ok p /\
    map slot_letter slots = ascii_uppercase /\
    chained slots [] (snd (get_words sample_net alice "beginner" [])) /\
    JArr [JObj [("word", JStr "Apple"); ("meaning", JStr "A common, round fruit.");
                ("example", JStr "We planted an apple."); ("letter", JStr "A")]]
      = JArr items /\
    Forall (fun s =>
      let l := slot_letter s in
      let r := sample_net (slot_start s) (datamuse_request p l) in
      let h1 := slot_start s ++ [(datamuse_request p l, r)] in
      exists fallback,
        fallback_words !! l = Some fallback /\
        slot_outcome sample_net p s /\
        (source_empty r = true ->
           slot_end s =
           h1 ++ [(GetDictionaryEntry (JStr fallback),
                   sample_net h1 (GetDictionaryEntry (JStr fallback)))]) /\
        ((forall item, item ∈ items -> getitem item "letter" <> Ok (JStr l)) <->
         exists probed,
           Forall2 (fun word_data w => getitem word_data "word" = Ok w)
                   (candidates r) probed /\
           (length probed <= 5)%nat /\
           failed_lookups sample_net (probed ++ [JStr fallback]) h1 (slot_end s)) /\
        (forall d, slot_record s = Some d ->
           exists tried w d0 hb,
             failed_lookups sample_net tried h1 hb /\
             get_word_details sample_net w hb = (Ok (Some d0), slot_end s) /\
             d = set_letter l d0))
      slots.
Proof.
  apply (fallback_before_omission sample_net (Identity 1 (JStr "alice")) "beginner" [] 200
           (JArr [JObj [("word", JStr "Apple"); ("meaning", JStr "A common, round fruit.");
                        ("example", JStr "We planted an apple."); ("letter", JStr "A")]])
           (snd (get_words sample_net alice "beginner" []))).
  vm_compute. reflexivity.
Defined.

(** The promise of 26 entries is kept where every letter has a word: in a
    world whose candidate source is down and whose dictionary knows every
    word, the answer has one record per letter, on the fallback words. *)
Example get_words_full :
  exists items,
    fst (get_words (fun _ req =>
                      match req with
                      | GetDatamuse _ _ _ => ConnectionFailed
                      | GetDictionaryEntry _ => Response 200 apple_entry
                      end) alice "proficient" []) = Ok (200, JArr items) /\
    length items = 26%nat /\
    omap (fun item => match getitem item "word" with
                      | Ok (JStr w) => Some w
                      | _ => None
                      end) items =
      ["Apple"; "Brave"; "Clever"; "Dream"; "Energy"; "Future"; "Grace"; "Happy";
       "Imagine"; "Journey"; "Kind"; "Laugh"; "Magic"; "Noble"; "Open"; "Peace";
       "Quest"; "Rise"; "Smile"; "Trust"; "Unity"; "Value"; "Wish"; "Xenial";
       "Youth"; "Zeal"].
Proof. eexists. split; [vm_compute; reflexivity|]. split; reflexivity. Qed.

(** ** Claims about the dictionary lookup *)

(** What a successful lookup returns, in the words of section 4.1: the
    meaning is the first definition of the first meaning, and the example is
    the first example sentence of the response, or the placeholder when the
    response has none -- as long as no example sentence of the response is
    the placeholder text itself. *)
Lemma get_word_details_Some net w h d h' :
  get_word_details net w h = (Ok (Some d), h') ->
  exists status_code body,
    net h (GetDictionaryEntry w) = Response status_code body /\
    first_meaning_text body = Some (meaning d) /\
    (examples body = [] -> example d = JStr no_example) /\
    (JStr no_example ∉ examples body -> example d = first_example body).
Proof.
  rewrite get_word_details_eq. unfold lookup_result.
  destruct (net h (GetDictionaryEntry w)) as [|status_code body]; [done|].
  destruct (error_status status_code); [done|].
  destruct (parse_details w body) as [d0|e] eqn:Hp; [|by destruct (lookup_handled e)].
  intros [= <- _]. exists status_code, body.
  apply parse_details_Ok in Hp as (_ & Hm & _ & _ & Hex).
  repeat split; [done| |done].
  intros Hnil. rewrite Hex; unfold first_example; rewrite Hnil; [done|apply not_elem_of_nil].
Qed.

(** C3. On a response whose first example sentence reads "No example
    sentence found." and which has a later meaning with an example, the
    lookup returns the later example: the scan takes the placeholder text
    for "nothing found yet" and goes on to the next meaning.  The first
    example of the response, which section 4.1 asks for, is the other one. *)
Theorem placeholder_example_overwritten :
  first_meaning_text placeholder_collision = Some (JStr "A repeated sound.") /\
  first_example placeholder_collision = JStr "No example sentence found." /\
  fst (get_word_details (fun _ _ => Response 200 placeholder_collision) (JStr "echo") []) =
    Ok (Some {| word := "Echo"; meaning := JStr "A repeated sound.";
                example := JStr "The hall echoed."; letter := None |}).
Proof. vm_compute. repeat split. Qed.

(** C8. A response whose ['meanings'] field is there but is [null] has a
    malformed expected field, one of the lookup failures of section 4.1,
    and the lookup has a handler for responses it cannot parse ("Could not
    parse data").  The handler catches [KeyError] and [IndexError] only,
    and subscripting [null] raises a [TypeError]: the lookup does not
    return its failure value, and the builder, instead of skipping the
    candidate and going on, stops with the exception. *)
Theorem malformed_field_not_absorbed :
  has_expected_fields null_meanings = false /\
  fst (get_word_details malformed_net (JStr "apple") []) = Raise TypeError /\
  fst (get_words malformed_net alice "beginner" []) = Raise TypeError.
Proof. vm_compute. repeat split. Qed.

(** The failures the lookup does absorb.  A lookup that meets a transport
    error, a 4xx or 5xx status, or an absent field on the path to the
    first definition (no entry, no ['meanings'] or an empty one, no
    ['definitions'] or an empty one, no ['definition']) returns [None] and
    nothing else, after that one call; and the probe loop of the builder,
    on such a candidate, goes on with the remaining candidates. *)
Lemma lookup_failure_skipped net l word_data w rest h :
  getitem word_data "word" = Ok w ->
  lookup_failure (net h (GetDictionaryEntry w)) = true ->
  let h1 := h ++ [(GetDictionaryEntry w, net h (GetDictionaryEntry w))] in
  get_word_details net w h = (Ok None, h1) /\
  probe_candidates net l (word_data :: rest) h = probe_candidates net l rest h1.
Proof.
  intros Hw Hfail h1.
  assert (Hd : get_word_details net w h = (Ok None, h1)).
  { rewrite get_word_details_eq. by rewrite lookup_failure_result. }
  split; [done|].
  simpl. unfold bind at 1, lift. rewrite Hw. unfold bind at 1. by rewrite Hd.
Qed.

(** The other call site: when it is the lookup of the fallback word that
    fails, the letter is skipped and the build goes on. *)
Lemma fallback_failure_skips_letter net p ws l h h1 fallback :
  query_candidates net p l h = (Ok None, h1) ->
  fallback_words !! l = Some fallback ->
  lookup_failure (net h1 (GetDictionaryEntry (JStr fallback))) = true ->
  letter_step net p ws l h =
  (Ok ws, h1 ++ [(GetDictionaryEntry (JStr fallback),
                  net h1 (GetDictionaryEntry (JStr fallback)))]).
Proof.
  intros Hq Hfb Hfail. rewrite letter_step_eq, Hq, Hfb, get_word_details_eq.
  by rewrite lookup_failure_result.
Qed.

Lemma lookup_failure_skipped_witness :
  get_word_details sample_net (JStr "aardvarkish") [] =
    (Ok None,
     [(GetDictionaryEntry (JStr "aardvarkish"),
       Response 404 (JObj [("title", JStr "No Definitions Found")]))]) /\
  probe_candidates sample_net "A"
    [JObj [("word", JStr "aardvarkish")]; JObj [("word", JStr "apple")]] [] =
  probe_candidates sample_net "A" [JObj [("word", JStr "apple")]]
    [(GetDictionaryEntry (JStr "aardvarkish"),
      Response 404 (JObj [("title", JStr "No Definitions Found")]))].
Proof.
  apply (lookup_failure_skipped sample_net "A"
           (JObj [("word", JStr "aardvarkish")]) (JStr "aardvarkish")
           [JObj [("word", JStr "apple")]] []).
  - reflexivity.
  - reflexivity.
Defined.

(** Each kind of absent field is covered. *)
Example field_absent_cases :
  Forall (fun body => field_absent body = true)
    [JArr [];
     JArr [JObj [("word", JStr "x")]];
     entry_json "x" [];
     entry_json "x" [JObj [("partOfSpeech", JStr "noun")]];
     entry_json "x" [meaning_json "noun" []];
     entry_json "x" [meaning_json "noun" [JObj [("synonyms", JArr [])]]]].
Proof. repeat constructor. Qed.

(** ** The SQLite connection *)

Lemma statement_inv c r c' :
  statement c = (r, c') ->
  committed c' = committed c /\ working c' = working c /\ clock c' = clock c.
Proof.
  unfold statement. destruct (faults c) as [|[] fs]; intros [= <- <-]; done.
Qed.

Lemma statement_no_faults c : faults c = [] -> statement c = (Ok tt, c).
Proof. unfold statement. by intros ->. Qed.

Lemma query_inv {A} (q : database -> A) c r c' :
  query q c = (r, c') ->
  committed c' = committed c /\ working c' = working c /\ clock c' = clock c /\
  (forall a, r = Ok a -> a = q (working c)).
Proof.
  unfold query, bind.
  destruct (statement c) as [[[]|e] c1] eqn:Hs; apply statement_inv in Hs as (? & Hw & ?);
    intros [= <- <-]; repeat split; try done.
  intros a [= <-]. by rewrite Hw.
Qed.

Lemma query_no_faults {A} (q : database -> A) c :
  faults c = [] -> query q c = (Ok (q (working c)), c).
Proof. intros Hf. unfold query, bind. by rewrite statement_no_faults. Qed.

Lemma insert_inv f c r c' :
  insert f c = (r, c') ->
  committed c' = committed c /\ clock c' = clock c /\
  match r with
  | Ok rowid => f (working c) (clock c) = (rowid, working c')
  | Raise _ => working c' = working c
  end.
Proof.
  unfold insert, bind.
  destruct (statement c) as [[[]|e] c1] eqn:Hs; apply statement_inv in Hs as (Hc & Hw & Hk).
  - rewrite Hw, Hk. destruct (f (working c) (clock c)) as [rowid db'].
    by intros [= <- <-].
  - by intros [= <- <-].
Qed.

Lemma commit_inv c r c' :
  commit c = (r, c') ->
  match r with
  | Ok _ => committed c' = working c /\ working c' = working c
  | Raise _ => committed c' = committed c
  end.
Proof.
  unfold commit, bind.
  destruct (statement c) as [[[]|e] c1] eqn:Hs; apply statement_inv in Hs as (Hc & Hw & Hk);
    intros [= <- <-]; simpl; by rewrite ?Hw.
Qed.

(** Row ids grow: the next one is above every id of the table. *)
Lemma next_rowid_above ids id : id ∈ ids -> id < next_rowid ids.
Proof.
  unfold next_rowid. induction 1 as [id ids|id id' ids _ IH]; cbn [foldr]; lia.
Qed.

Lemma created_id_fresh db r : r ∈ session_table db -> s_id r <> created_id db.
Proof.
  intros Hr. apply (list_elem_of_fmap_2 s_id) in Hr.
  apply next_rowid_above in Hr. apply Z.lt_neq. exact Hr.
Qed.

(** ** The session store *)

Section StoreProofs.
Context {runtime : Runtime}.

Lemma with_words_nil db : with_words db [] = db.
Proof. destruct db. unfold with_words. simpl. by rewrite app_nil_r. Qed.

(** [executemany] leaves the committed state alone, and when it returns it
    has appended one row per tuple. *)
Lemma executemany_words_inv session_id tuples c r c' :
  executemany_words session_id tuples c = (r, c') ->
  committed c' = committed c /\ clock c' = clock c /\
  (r = Ok tt ->
   exists rows, mapM bind_tuple tuples = Ok rows /\
                working c' = with_words (working c) (map (word_row_of session_id) rows)).
Proof.
  revert c. induction tuples as [|[[[l t] m] e] rest IH]; intros c; simpl.
  - unfold ret. intros [= <- <-]. repeat split. intros _. exists [].
    by rewrite with_words_nil.
  - unfold bind at 1, lift.
    destruct (bind_param l) as [l'|err]; [|by intros [= <- <-]].
    unfold bind at 1.
    destruct (bind_param t) as [t'|err]; [|by intros [= <- <-]].
    unfold bind at 1.
    destruct (bind_param m) as [m'|err]; [|by intros [= <- <-]].
    unfold bind at 1.
    destruct (bind_param e) as [e'|err]; [|by intros [= <- <-]].
    unfold bind at 1.
    destruct (insert_word (WordRow session_id l' t' m' e') c) as [[rowid|err] c1] eqn:Hi;
      apply insert_inv in Hi as (Hc & Hk & Hw).
    + intros (Hc' & Hk' & Hrows)%IH. rewrite Hc', Hk'. repeat split; [done..|].
      intros (rows & Hm & Hw')%Hrows. exists ((l', t', m', e') :: rows).
      unfold mbind, res_bind in *. simpl. rewrite Hm. split; [done|].
      injection Hw as _ Hw. rewrite Hw', <- Hw. simpl.
      unfold with_words. simpl. by rewrite <- app_assoc.
    + by intros [= <- <-].
Qed.

(** What the store looks like after [save_session_data], whatever the
    engine did: when it returns, the payload could be read and bound, and
    the session, all its word rows and its quiz row are committed; when it
    raises, nothing was committed. *)
Lemma save_session_data_inv user_id data c r c' :
  save_session_data user_id data c = (r, c') ->
  match r with
  | Ok _ =>
      exists mode score_percent rows quiz,
        read_session data = Ok (mode, score_percent, rows, quiz) /\
        committed c' =
          store (working c) user_id mode score_percent (clock c) rows (json_dumps quiz) /\
        working c' = committed c'
  | Raise _ => committed c' = committed c
  end.
Proof.
  unfold save_session_data, read_session, lift.
  unfold bind at 1. destruct (getitem data "mode") as [mode|e]; [|by intros [= <- <-]].
  unfold bind at 1. destruct (getitem data "scorePercent") as [score|e];
    [|by intros [= <- <-]].
  unfold bind at 1. destruct (bind_param mode) as [mode'|e] eqn:Em;
    [|by intros [= <- <-]].
  unfold bind at 1. destruct (bind_param score) as [score'|e] eqn:Es;
    [|by intros [= <- <-]].
  unfold bind at 1.
  destruct (insert_session user_id mode' score' c) as [[session_id|e] c1] eqn:Hi;
    apply insert_inv in Hi as (Hc1 & Hk1 & Hw1); [|by intros [= <- <-]].
  injection Hw1 as Hid Hw1.
  unfold bind at 1. destruct (getitem data "words") as [words|e];
    [|by intros [= <- <-]].
  unfold bind at 1. destruct (iter words) as [items|e] eqn:Ei; [|by intros [= <- <-]].
  unfold bind at 1. destruct (word_tuples items) as [tuples|e] eqn:Et;
    [|by intros [= <- <-]].
  unfold bind at 1.
  destruct (executemany_words session_id tuples c1) as [[[]|e] c2] eqn:He;
    apply executemany_words_inv in He as (Hc2 & Hk2 & Hw2);
    [|intros [= <- <-]; congruence].
  destruct (Hw2 eq_refl) as (rows & Hrows & Hw2'). clear Hw2.
  unfold bind at 1. destruct (getitem data "quiz") as [quiz|e];
    [|intros [= <- <-]; congruence].
  unfold bind at 1.
  destruct (insert_quiz session_id (json_dumps quiz) c2) as [[rowid|e] c3] eqn:Hq;
    apply insert_inv in Hq as (Hc3 & Hk3 & Hw3); [|intros [= <- <-]; congruence].
  injection Hw3 as _ Hw3.
  intros Hcommit. apply commit_inv in Hcommit.
  destruct r as [[]|e]; [|congruence].
  destruct Hcommit as [Hc4 Hw4].
  exists mode', score', rows, quiz. simpl.
  rewrite Em; simpl. rewrite Es; simpl. rewrite Ei; simpl. rewrite Et; simpl.
  rewrite Hrows.
  split; [done|]. split; [|congruence].
  rewrite Hc4, <- Hw3, Hw2', <- Hw1, <- Hid. reflexivity.
Qed.

Lemma read_session_inv data mode score_percent rows quiz :
  read_session data = Ok (mode, score_percent, rows, quiz) ->
  exists m s words items tuples,
    getitem data "mode" = Ok m /\ bind_param m = Ok mode /\
    getitem data "scorePercent" = Ok s /\ bind_param s = Ok score_percent /\
    getitem data "words" = Ok words /\ iter words = Ok items /\
    word_tuples items = Ok tuples /\ mapM bind_tuple tuples = Ok rows /\
    getitem data "quiz" = Ok quiz.
Proof.
  unfold read_session. intros Hr.
  res_inv Hr as m Em. res_inv Hr as s Es. res_inv Hr as m' Em'. res_inv Hr as s' Es'.
  res_inv Hr as words Ew. res_inv Hr as items Ei. res_inv Hr as tuples Et.
  res_inv Hr as rows' Er. res_inv Hr as quiz' Eq. injection Hr as <- <- <- <-.
  by exists m, s, words, items, tuples.
Qed.

Lemma executemany_words_no_faults session_id tuples rows c :
  faults c = [] -> mapM bind_tuple tuples = Ok rows ->
  executemany_words session_id tuples c =
  (Ok tt, {| committed := committed c;
             working := with_words (working c) (map (word_row_of session_id) rows);
             faults := []; clock := clock c |}).
Proof.
  revert rows c. induction tuples as [|[[[l t] m] e] rest IH]; intros rows c Hf; simpl.
  - intros [= <-]. simpl. rewrite with_words_nil. unfold ret. f_equal.
    destruct c; simpl in *; by subst.
  - intros Hm. res_inv Hm as r Er. res_inv Hm as rs Ers. injection Hm as <-.
    unfold mbind, res_bind in Er.
    destruct (bind_param l) as [l'|]; [|discriminate].
    destruct (bind_param t) as [t'|]; [|discriminate].
    destruct (bind_param m) as [m'|]; [|discriminate].
    destruct (bind_param e) as [e'|]; [|discriminate].
    injection Er as <-.
    unfold bind, lift, insert_word, insert, bind. rewrite statement_no_faults by done.
    rewrite (IH rs) by done. simpl. do 2 f_equal.
    unfold with_words. simpl. by rewrite <- app_assoc.
Qed.

(** On an engine that does not fail, a payload that can be read and bound
    is saved: the mode is bound like any other value, whatever it says. *)
Lemma save_session_data_no_faults user_id data db now mode score_percent rows quiz :
  read_session data = Ok (mode, score_percent, rows, quiz) ->
  save_session_data user_id data (connect db [] now) =
  (Ok tt,
   connect (store db user_id mode score_percent now rows (json_dumps quiz)) [] now).
Proof.
  intros (m & s & words & items & tuples & Hm & Hbm & Hs & Hbs & Hw & Hi & Ht & Hr & Hq)
    %read_session_inv.
  unfold save_session_data, lift.
  unfold bind at 1. rewrite Hm. unfold bind at 1. rewrite Hs.
  unfold bind at 1. rewrite Hbm. unfold bind at 1. rewrite Hbs.
  unfold bind at 1, insert_session, insert, bind at 1.
  rewrite statement_no_faults by done. cbn [working connect clock committed faults].
  unfold bind at 1. rewrite Hw. unfold bind at 1. rewrite Hi.
  unfold bind at 1. rewrite Ht.
  unfold bind at 1. rewrite (executemany_words_no_faults _ _ rows) by done.
  unfold bind at 1. rewrite Hq.
  unfold bind at 1, insert_quiz, insert, bind at 1.
  rewrite statement_no_faults by done.
  unfold commit, bind. rewrite statement_no_faults by done.
  reflexivity.
Qed.

Lemma filter_none {A} (P : A -> Prop) `{!forall x, Decision (P x)} (l : list A) :
  (forall x, x ∈ l -> ~ P x) -> filter P l = [].
Proof.
  induction l as [|x l IH]; [done|]. intros Hl.
  rewrite filter_cons_False by (apply Hl; left).
  apply IH. intros y Hy. apply Hl. by right.
Qed.

Lemma filter_all {A} (P : A -> Prop) `{!forall x, Decision (P x)} (l : list A) :
  (forall x, x ∈ l -> P x) -> filter P l = l.
Proof.
  induction l as [|x l IH]; [done|]. intros Hl.
  rewrite filter_cons_True by (apply Hl; left).
  f_equal. apply IH. intros y Hy. apply Hl. by right.
Qed.

Lemma empty_database_ok : database_ok empty_database.
Proof. repeat split; constructor. Qed.

(** Storing a session keeps the tables consistent. *)
Lemma store_ok db user_id mode score_percent now rows quiz_data :
  database_ok db ->
  database_ok (store db user_id mode score_percent now rows quiz_data).
Proof.
  intros (Hids & Hwords & Hquiz). unfold database_ok, store. simpl.
  set (header := SessionRow (created_id db) user_id mode score_percent now).
  change (map s_id (session_table db ++ [header]))
    with (s_id <$> (session_table db ++ [header])).
  rewrite fmap_app. simpl. split; [|split].
  - apply NoDup_app. split; [done|]. split; [|apply NoDup_singleton].
    intros id Hid ->%list_elem_of_singleton.
    apply next_rowid_above in Hid. unfold created_id in Hid.
    change (s_id <$> session_table db) with (map s_id (session_table db)) in Hid. lia.
  - apply Forall_app. split.
    + eapply Forall_impl; [exact Hwords|]. intros w Hw. apply elem_of_app. by left.
    + apply Forall_forall. intros w (r & -> & _)%list_elem_of_fmap.
      apply elem_of_app. right. destruct r as [[[l t] m] e]. simpl. left.
  - apply Forall_app. split.
    + eapply Forall_impl; [exact Hquiz|]. intros q Hq. apply elem_of_app. by left.
    + repeat constructor. apply elem_of_app. right. simpl. left.
Qed.

Lemma serve_save_session_ok session data db fs now :
  database_ok db ->
  database_ok (snd (serve (save_session session data) db fs now)).
Proof.
  intros Hok. unfold serve, save_session.
  destruct session as [ident|]; [|done].
  unfold bind.
  destruct (save_session_data (session_user_id ident) data (connect db fs now))
    as [[[]|e] c] eqn:Hsave; apply save_session_data_inv in Hsave;
    unfold close_db; simpl.
  - destruct Hsave as (mode & score & rows & quiz & _ & Hc & _). rewrite Hc.
    by apply store_ok.
  - by rewrite Hsave.
Qed.

(** C5. [POST /api/sessions] is all or nothing, whatever the payload and
    whatever the storage engine does on any of its statements: either the
    request is answered 201 and the session header, one word row per
    submitted word and the quiz row are stored together under one new id, or
    the caller gets an error (the 401 of an anonymous request, or the
    exception that stopped the handler) and the stored state is exactly
    what it was.  A header without its words is never stored. *)
Theorem save_session_atomic session data db fs now :
  let out := serve (save_session session data) db fs now in
  (exists ident mode score_percent rows quiz,
     session = Some ident /\
     read_session data = Ok (mode, score_percent, rows, quiz) /\
     fst out = Ok (201, message_json "Session saved successfully.") /\
     snd out =
       store db (session_user_id ident) mode score_percent now rows (json_dumps quiz))
  \/
  ((fst out = Ok (401, error_json "Authentication required.") \/
    exists e, fst out = Raise e) /\
   snd out = db).
Proof.
  unfold serve, save_session. destruct session as [ident|]; simpl.
  - unfold bind.
    destruct (save_session_data (session_user_id ident) data (connect db fs now))
      as [[[]|e] c] eqn:Hsave; apply save_session_data_inv in Hsave; simpl.
    + left. destruct Hsave as (mode & score & rows & quiz & Hread & Hc & _).
      exists ident, mode, score, rows, quiz. unfold close_db. by rewrite Hc.
    + right. split; [right; by exists e|done].
  - right. split; [by left|done].
Qed.

(** Reading a session back right after it was stored. *)
Lemma get_session_details_store db user_id mode score_percent now rows quiz_data now' :
  database_ok db ->
  fst (get_session_details user_id (created_id db)
         (connect (store db user_id mode score_percent now rows quiz_data) [] now')) =
  match json_loads quiz_data with
  | Ok quiz =>
      Ok (Some {| sd_id := created_id db;
                  sd_mode := to_python mode;
                  sd_scorePercent := to_python score_percent;
                  sd_dateISO := now;
                  sd_words := map word_dict (map (word_row_of (created_id db)) rows);
                  sd_quiz := quiz |})
  | Raise e => Raise e
  end.
Proof.
  intros (Hids & Hwords & Hquiz).
  unfold get_session_details.
  unfold bind at 1. rewrite query_no_faults by done.
  cbn [working connect store session_table].
  rewrite filter_app.
  rewrite filter_none by (intros r Hr [Hid _]; by apply created_id_fresh in Hr).
  rewrite filter_cons_True, filter_nil by done.
  simpl (head _). cbv beta iota.
  unfold bind at 1. rewrite query_no_faults by done.
  cbn [working connect store word_table].
  rewrite Forall_forall in Hwords. rewrite Forall_forall in Hquiz.
  rewrite filter_app.
  rewrite filter_none
    by (intros w Hw%Hwords%next_rowid_above Hid; unfold created_id in Hid; lia).
  rewrite filter_all
    by (intros w (r & -> & _)%list_elem_of_fmap; by destruct r as [[[l t] m] e]).
  simpl app.
  unfold bind at 1. rewrite query_no_faults by done.
  cbn [working connect store quiz_table].
  rewrite filter_app.
  rewrite filter_none
    by (intros q Hq%Hquiz%next_rowid_above Hid; unfold created_id in Hid; lia).
  rewrite filter_cons_True, filter_nil by done.
  simpl (head _). unfold bind, lift, ret.
  simpl. by destruct (json_loads quiz_data).
Qed.

Lemma text_record_stored session_id w t r :
  text_record w = true -> word_tuple w = Ok t -> bind_tuple t = Ok r ->
  word_dict (word_row_of session_id r) = stored_word w.
Proof.
  unfold text_record, stored_word. intros Ht Hw. rewrite Hw in *.
  destruct t as [[[[| | |l| |] [| | |t| |]] [| | |m| |]] [| | |e| |]]; try discriminate.
  simpl. by intros [= <-].
Qed.

Lemma text_records_stored session_id items tuples rows :
  forallb text_record items = true ->
  word_tuples items = Ok tuples -> mapM bind_tuple tuples = Ok rows ->
  map word_dict (map (word_row_of session_id) rows) = map stored_word items.
Proof.
  revert tuples rows. induction items as [|w items IH]; intros tuples rows; simpl.
  - intros _ [= <-]. simpl. by intros [= <-].
  - intros [Hw Hrest]%andb_prop Ht.
    res_inv Ht as t Et. res_inv Ht as ts Ets. injection Ht as <-. simpl.
    intros Hb. res_inv Hb as r Er. res_inv Hb as rs Ers. injection Hb as <-. simpl.
    f_equal; [by eapply text_record_stored|by eapply IH].
Qed.

(** C4, amended. A session whose words are WordRecords (four text fields
    each) and whose quiz survives JSON serialisation, once saved, is read
    back by its owner under the id it was given with the same quiz and, in
    the same order, the same four values per word -- the word itself under
    the key ['word_text'] instead of ['word']. *)
Theorem session_round_trip user_id data db fs now now' c words quiz :
  database_ok db ->
  save_session_data user_id data (connect db fs now) = (Ok tt, c) ->
  getitem data "words" = Ok (JArr words) ->
  forallb text_record words = true ->
  getitem data "quiz" = Ok quiz ->
  json_loads (json_dumps quiz) = Ok quiz ->
  exists d,
    fst (get_session_details user_id (created_id db) (connect (close_db c) [] now'))
      = Ok (Some d) /\
    sd_id d = created_id db /\
    sd_words d = map stored_word words /\
    sd_quiz d = quiz.
Proof.
  intros Hok Hsave Hwords Htext Hquiz Hloads.
  apply save_session_data_inv in Hsave
    as (mode & score & rows & quiz' & Hread & Hc & _).
  apply read_session_inv in Hread
    as (m & s & words' & items & tuples & _ & _ & _ & _ & Hw & Hi & Ht & Hr & Hq).
  rewrite Hwords in Hw. injection Hw as <-. simpl in Hi. injection Hi as <-.
  rewrite Hquiz in Hq. injection Hq as <-.
  unfold close_db. rewrite Hc. simpl working. simpl clock.
  rewrite get_session_details_store by done. rewrite Hloads.
  eexists. split; [done|]. simpl. repeat split.
  by eapply text_records_stored.
Qed.

Lemma unique_session_id (l : list session_row) r r' :
  NoDup (map s_id l) -> r ∈ l -> r' ∈ l -> s_id r = s_id r' -> r = r'.
Proof.
  induction l as [|x l IH]; simpl; [by intros _ ?%elem_of_nil|].
  intros [Hx Hl]%NoDup_cons [->|Hr]%elem_of_cons [->|Hr']%elem_of_cons Hid; try done.
  - destruct Hx. rewrite Hid. by apply (list_elem_of_fmap_2 s_id).
  - destruct Hx. rewrite <- Hid. by apply (list_elem_of_fmap_2 s_id).
  - by apply IH.
Qed.

Lemma head_filter_None {A} (P : A -> Prop) `{!forall x, Decision (P x)} (l : list A) :
  head (filter P l) = None <-> forall x, x ∈ l -> ~ P x.
Proof.
  split.
  - intros Hh x Hx HP. destruct (filter P l) as [|y ys] eqn:Hf; [|done].
    by eapply filter_nil_not_elem_of.
  - intros Hl. by rewrite filter_none.
Qed.

(** A session id that is not the caller's, whether it exists or not, is
    looked up in vain. *)
Lemma get_session_details_not_owned user_id session_id c :
  (forall r, r ∈ session_table (working c) ->
             ~ (s_id r = session_id /\ s_user_id r = user_id)) ->
  get_session_details user_id session_id c =
  match faults c with
  | true :: _ => (Raise DatabaseError, snd (statement c))
  | _ => (Ok None, snd (statement c))
  end.
Proof.
  intros Hnone. unfold get_session_details, bind at 1, query, bind at 1.
  unfold statement. destruct (faults c) as [|[] fs]; simpl; [| done |].
  - by rewrite filter_none.
  - by rewrite filter_none.
Qed.

(** C6. For a user u and a session id s: when s exists but belongs to
    someone else, [GET /api/sessions/s] answers u exactly as it does on a
    store where s does not exist -- status 404 with the body "Session not
    found or access denied." (or, if the storage engine fails on the
    lookup, the same error in both cases) -- and leaves the store as it
    was. *)
Theorem foreign_session_not_found db1 db2 ident session_id owner fs now :
  database_ok db1 ->
  session_owner db1 session_id = Some owner ->
  owner <> session_user_id ident ->
  session_owner db2 session_id = None ->
  let out :=
    match fs with
    | true :: _ => Raise DatabaseError
    | _ => Ok (404, error_json "Session not found or access denied.")
    end in
  serve (get_session_detail (Some ident) session_id) db1 fs now = (out, db1) /\
  serve (get_session_detail (Some ident) session_id) db2 fs now = (out, db2).
Proof.
  intros (Hids & _) Hown Hne Hnone out. subst out.
  unfold session_owner in *.
  destruct (head (filter (fun r => s_id r = session_id) (session_table db1)))
    as [r|] eqn:Hr; [|done]. injection Hown as <-.
  apply head_Some_elem_of, list_elem_of_filter in Hr as [Hrid Hr].
  apply fmap_None in Hnone. rewrite head_filter_None in Hnone.
  unfold serve, get_session_detail, bind. split.
  - rewrite get_session_details_not_owned.
    + simpl. by destruct fs as [|[] fs].
    + simpl. intros r' Hr' [Hid Hu]. apply Hne. rewrite <- Hu. f_equal.
      apply (unique_session_id (session_table db1)); congruence.
  - rewrite get_session_details_not_owned.
    + simpl. by destruct fs as [|[] fs].
    + simpl. intros r' Hr' [Hid _]. by apply (Hnone r').
Qed.

(** ** Tracking statistics *)



(** *** Double precision *)


















(** On an engine that does not fail, the statistics are the three tier
    entries, inserted in the order of [levels]. *)
Lemma get_tracking_stats_eq user_id db now :
  get_tracking_stats user_id (connect db [] now) =
  (Ok (<["proficient" := tier_stat db user_id "proficient"]>
         (<["intermediate" := tier_stat db user_id "intermediate"]>
            (<["beginner" := tier_stat db user_id "beginner"]> ∅))),
   connect db [] now).
Proof.
  unfold get_tracking_stats, levels, tracking_loop.
  repeat (unfold bind at 1; rewrite query_no_faults by done).
  reflexivity.
Qed.



(** A session of another user, or of another mode, is not among a tier's
    sessions. *)
Lemma tier_sessions_store db user_id level owner mode score_percent now rows quiz_data :
  owner <> user_id \/ mode <> Text level ->
  tier_sessions (store db owner mode score_percent now rows quiz_data) user_id level =
  tier_sessions db user_id level.
Proof.
  intros Hother. unfold tier_sessions, store. simpl.
  rewrite filter_app, filter_cons_False, filter_nil, app_nil_r; [done|].
  simpl. intros [-> ->]. by destruct Hother.
Qed.

Lemma insert_by_date_elem_of r sorted x :
  x ∈ insert_by_date r sorted <-> x = r \/ x ∈ sorted.
Proof.
  induction sorted as [|y sorted IH]; simpl.
  - rewrite list_elem_of_singleton, elem_of_nil. tauto.
  - destruct (String.ltb (s_date y) (s_date r)).
    + rewrite !elem_of_cons. tauto.
    + rewrite !elem_of_cons, IH. tauto.
Qed.

(** Ordering the rows loses none and adds none. *)
Lemma order_by_date_desc_elem_of rows x :
  x ∈ order_by_date_desc rows <-> x ∈ rows.
Proof.
  unfold order_by_date_desc.
  assert (Hgen : forall acc, x ∈ foldl (fun sorted r => insert_by_date r sorted) acc rows
                             <-> x ∈ acc \/ x ∈ rows).
  { induction rows as [|r rows IH]; intros acc; simpl.
    - rewrite elem_of_nil. tauto.
    - rewrite IH, insert_by_date_elem_of, elem_of_cons. tauto. }
  rewrite Hgen, elem_of_nil. tauto.
Qed.

(** C10. A session saved with a mode string that is none of the three tiers
    is stored under that very string (nothing checks it against the tiers);
    [get_user_sessions] then lists it, with its id and that mode, among its
    owner's sessions, while the tracking statistics of every user are what
    they were before: no tier's average or count moves. *)
Theorem unknown_mode_listed_not_tracked user_id data db fs now now' c mode :
  getitem data "mode" = Ok (JStr mode) ->
  mode ∉ levels ->
  save_session_data user_id data (connect db fs now) = (Ok tt, c) ->
  (exists header,
     header ∈ session_table (close_db c) /\
     s_id header = created_id db /\ s_user_id header = user_id /\
     s_mode header = Text mode) /\
  (exists sessions summary,
     fst (get_user_sessions user_id (connect (close_db c) [] now')) = Ok sessions /\
     summary ∈ sessions /\
     getitem summary "id" = Ok (JNum (created_id db)) /\
     getitem summary "mode" = Ok (JStr mode)) /\
  (forall u,
     fst (get_tracking_stats u (connect (close_db c) [] now')) =
     fst (get_tracking_stats u (connect db [] now'))).
Proof.
  intros Hmode Hnot Hsave.
  apply save_session_data_inv in Hsave
    as (mode' & score & rows & quiz & Hread & Hc & _).
  apply read_session_inv in Hread as (m & s & _ & _ & _ & Hm & Hb & _).
  rewrite Hmode in Hm. injection Hm as <-. simpl in Hb. injection Hb as <-.
  unfold close_db. rewrite Hc. simpl working. simpl clock.
  set (header := SessionRow (created_id db) user_id (Text mode) score now).
  assert (Hin : header ∈ session_table
                  (store db user_id (Text mode) score now rows (json_dumps quiz))).
  { unfold store. simpl. apply elem_of_app. right. left. }
  split; [by exists header|]. split.
  - unfold get_user_sessions, bind. rewrite query_no_faults by done. simpl.
    eexists _, (session_summary header). split; [reflexivity|].
    split; [|done].
    apply (list_elem_of_fmap_2 session_summary).
    apply order_by_date_desc_elem_of, list_elem_of_filter. done.
  - intros u. rewrite !get_tracking_stats_eq. simpl. f_equal.
    assert (Hstat : forall level, level ∈ levels ->
              tier_stat (store db user_id (Text mode) score now rows (json_dumps quiz))
                        u level = tier_stat db u level).
    { intros level Hlevel. unfold tier_stat. rewrite tier_sessions_store; [done|].
      right. intros [= ->]. done. }
    rewrite !Hstat; [done|unfold levels; repeat constructor..].
Qed.

Lemma truthy_credential c : truthy (credential_json c) = negb (blank c).
Proof. by destruct c. Qed.

Lemma head_filter_elem_of {A} (P : A -> Prop) `{!forall x, Decision (P x)} (l : list A) :
  is_Some (head (filter P l)) <-> exists x, x ∈ l /\ P x.
Proof.
  split.
  - intros [x Hx]. apply head_Some_elem_of, list_elem_of_filter in Hx. exists x. tauto.
  - intros (x & Hx & HP). destruct (head (filter P l)) eqn:Hh; [done|].
    rewrite head_filter_None in Hh. by destruct (Hh x).
Qed.

(** C9, amended. On a JSON object whose credentials, where present, are
    texts, and a store that answers: [POST /api/register] returns 400 when
    the username or the password is missing or empty; otherwise 409 when the
    username is already registered; otherwise it adds the user and returns
    201. *)
Theorem register_outcome db data u p now :
  get data "username" = Ok (credential_json u) ->
  get data "password" = Ok (credential_json p) ->
  serve (register data) db [] now = register_contract db u p.
Proof.
  intros Hu Hp. unfold serve, register, register_contract, lift.
  unfold bind at 1. rewrite Hu. unfold bind at 1. rewrite Hp.
  rewrite !truthy_credential, !negb_involutive.
  destruct (blank u || blank p) eqn:Hblank; [done|].
  apply orb_false_elim in Hblank as [Hbu Hbp].
  destruct u as [name|]; [|done]. destruct p as [pass|]; [|done]. simpl.
  unfold bind at 1. unfold bind at 1. rewrite query_no_faults by done.
  cbn [working connect].
  case_bool_decide as Htaken.
  - assert (Hsome : is_Some (head (filter (fun r => u_username r = Text name)
                                          (user_table db)))).
    { apply head_filter_elem_of. apply list_elem_of_fmap in Htaken as (r & Hr & Hin).
      by exists r. }
    destruct Hsome as [r ->]. done.
  - assert (Hnone : head (filter (fun r => u_username r = Text name) (user_table db))
                    = None).
    { apply head_filter_None. intros r Hr Hname. apply Htaken.
      rewrite <- Hname. by apply (list_elem_of_fmap_2 u_username). }
    rewrite Hnone. reflexivity.
Qed.

(** Registration only ever touches the user table. *)
Lemma serve_register_tables data db fs now :
  session_table (snd (serve (register data) db fs now)) = session_table db /\
  word_table (snd (serve (register data) db fs now)) = word_table db /\
  quiz_table (snd (serve (register data) db fs now)) = quiz_table db.
Proof.
  destruct (serve (register data) db fs now) as [r db'] eqn:Hserve. simpl.
  revert Hserve.
  assert (Hsame : forall r0 c, committed c = db -> (r0, close_db c) = (r, db') ->
            session_table db' = session_table db /\ word_table db' = word_table db /\
            quiz_table db' = quiz_table db).
  { intros r0 c Hc [= _ <-]. unfold close_db. by rewrite Hc. }
  unfold serve, register, lift.
  unfold bind at 1. destruct (get data "username") as [username|e]; [|by apply Hsame].
  unfold bind at 1. destruct (get data "password") as [password|e]; [|by apply Hsame].
  destruct (negb (truthy username) || negb (truthy password)); [by apply Hsame|].
  unfold bind at 1. destruct (bind_param username) as [username'|e]; [|by apply Hsame].
  unfold bind at 1.
  destruct (query _ (connect db fs now)) as [[existing|e] c1] eqn:Hq;
    apply query_inv in Hq as (Hc1 & Hw1 & _);
    cbn [committed working connect] in Hc1, Hw1; [|by apply Hsame].
  destruct existing as [row|]; [by apply Hsame|].
  unfold bind at 1.
  destruct (hash_password password) as [hashed|e]; [|by apply Hsame].
  unfold bind at 1.
  destruct (insert_user username' (Text hashed) c1) as [[rowid|e] c2] eqn:Hi;
    apply insert_inv in Hi as (Hc2 & _ & Hw2); [|apply Hsame; congruence].
  injection Hw2 as _ Hw2.
  unfold bind at 1.
  destruct (commit c2) as [[[]|e] c3] eqn:Hcommit; apply commit_inv in Hcommit;
    [|apply Hsame; congruence].
  destruct Hcommit as [Hc3 _]. unfold ret. intros [= _ <-]. unfold close_db.
  rewrite Hc3, <- Hw2, Hw1. done.
Qed.

(** Every store the application can reach is consistent. *)
Lemma reachable_ok db : reachable db -> database_ok db.
Proof.
  induction 1 as [|db data fs now _ IH|db session data fs now _ IH].
  - apply empty_database_ok.
  - destruct (serve_register_tables data db fs now) as (Hs & Hw & Hq).
    unfold database_ok. by rewrite Hs, Hw, Hq.
  - by apply serve_save_session_ok.
Qed.

End StoreProofs.

(** ** The claims on sample stores *)

(** The engine failing on the quiz row, after the header and the 26 word
    rows went in: nothing is stored. *)
Example save_session_quiz_fault :
  serve (save_session (runtime := sample_runtime) alice (sample_session "beginner" 80))
        registered_db (replicate 27 false ++ [true]) sample_now
  = (Raise DatabaseError, registered_db).
Proof. vm_compute. reflexivity. Qed.

(** A payload whose second word has no ['meaning']: the header is already
    inserted when the [KeyError] is raised, and nothing is stored. *)
Example save_session_malformed_word :
  serve (save_session (runtime := sample_runtime) alice
           (JObj [("mode", JStr "beginner"); ("scorePercent", JNum 80);
                  ("words", JArr [word_json "A" "Apple";
                                  JObj [("letter", JStr "B"); ("word", JStr "Brave")]]);
                  ("quiz", JArr [])]))
        registered_db [] sample_now
  = (Raise KeyError, registered_db).
Proof. vm_compute. reflexivity. Qed.

(** A word that cannot be bound, after a word that was inserted. *)
Example save_session_unbindable_word :
  serve (save_session (runtime := sample_runtime) alice
           (JObj [("mode", JStr "beginner"); ("scorePercent", JNum 80);
                  ("words", JArr [word_json "A" "Apple";
                                  JObj [("letter", JStr "B"); ("word", JStr "Brave");
                                        ("meaning", JArr [JStr "bold"]);
                                        ("example", JStr "A brave move.")]]);
                  ("quiz", JArr [])]))
        registered_db [] sample_now
  = (Raise DatabaseError, registered_db).
Proof. vm_compute. reflexivity. Qed.

Lemma registered_db_ok : database_ok registered_db.
Proof. repeat split; constructor. Qed.

Lemma one_session_db_ok : database_ok one_session_db.
Proof. apply (serve_save_session_ok (runtime := sample_runtime)), registered_db_ok. Qed.

(** C4, as stated, fails: the 26 submitted records carry the key ['word'];
    the records read back carry ['word_text'] instead, so the words are not
    deep-equal to what was submitted (the quiz is). *)
Lemma round_trip_renames_word :
  forallb text_record sample_words = true /\
  length sample_words = 26%nat /\
  exists d,
    fst (get_session_details (runtime := sample_runtime) 1 (created_id registered_db)
           (connect (close_db saved_connection) [] sample_now)) = Ok (Some d) /\
    sd_quiz d = sample_quiz /\
    sd_words d <> sample_words /\
    Forall (fun w => getitem w "word" = Raise KeyError) (sd_words d).
Proof.
  split; [reflexivity|]. split; [reflexivity|].
  eexists. split; [vm_compute; reflexivity|].
  split; [reflexivity|]. split.
  - vm_compute. discriminate.
  - vm_compute. repeat constructor.
Qed.

Lemma session_round_trip_witness :
  exists d,
    fst (get_session_details (runtime := sample_runtime) 1 (created_id registered_db)
           (connect (close_db saved_connection) [] sample_now)) = Ok (Some d) /\
    sd_id d = created_id registered_db /\
    sd_words d = map stored_word sample_words /\
    sd_quiz d = sample_quiz.
Proof.
  apply (session_round_trip (runtime := sample_runtime) 1 (sample_session "beginner" 80)
           registered_db [] sample_now sample_now saved_connection
           sample_words sample_quiz).
  - repeat split; constructor.
  - vm_compute. reflexivity.
  - reflexivity.
  - reflexivity.
  - reflexivity.
  - vm_compute. reflexivity.
Defined.

Lemma foreign_session_not_found_witness :
  serve (get_session_detail (runtime := sample_runtime) (Some bob) 1)
        one_session_db [] sample_now
    = (Ok (404, error_json "Session not found or access denied."), one_session_db) /\
  serve (get_session_detail (runtime := sample_runtime) (Some bob) 1)
        registered_db [] sample_now
    = (Ok (404, error_json "Session not found or access denied."), registered_db).
Proof.
  apply (foreign_session_not_found (runtime := sample_runtime)
           one_session_db registered_db bob 1 1 [] sample_now).
  - exact one_session_db_ok.
  - vm_compute. reflexivity.
  - vm_compute. discriminate.
  - vm_compute. reflexivity.
Defined.

(** The owner does get the session. *)
Example owner_gets_session :
  exists body,
    fst (serve (get_session_detail (runtime := sample_runtime) alice 1)
               one_session_db [] sample_now) = Ok (200, body) /\
    getitem body "id" = Ok (JNum 1) /\ getitem body "quiz" = Ok sample_quiz.
Proof. eexists. split; [vm_compute; reflexivity|]. split; reflexivity. Qed.


(** The end-to-end scenario of section 8: one beginner session scored 80. *)
Example tracking_after_one_session :
  exists stats,
    fst (get_tracking_stats (runtime := sample_runtime) 1
           (connect one_session_db [] sample_now)) = Ok stats /\
    stats !! "beginner" = Some {| average := 80; count := 1 |} /\
    stats !! "intermediate" = Some {| average := 0; count := 0 |} /\
    stats !! "proficient" = Some {| average := 0; count := 0 |} /\
    stats !! "expert" = None.
Proof.
  eexists. split; [by rewrite get_tracking_stats_eq|].
  repeat split; vm_compute; reflexivity.
Qed.

(** Ties go to the even side, as Python's [round] does. *)
Example py_round_half_even :
  py_round (165 # 2) = 82 /\ py_round (167 # 2) = 84 /\ py_round (250 # 3) = 83.
Proof. repeat split. Qed.

(** What double precision does to numbers: a percentage is a double, one
    tenth is not, and neither is [2^53 + 1]. *)
Example binary64_samples :
  (binary64 (inject_Z 100) == inject_Z 100)%Q /\
  (binary64 (1 # 10) == 3602879701896397 # 36028797018963968)%Q /\
  (binary64 (inject_Z (2 ^ 53 + 1)) == inject_Z (2 ^ 53))%Q.
Proof. repeat split. Qed.

(** Why the scores are bounded above: the route stores whatever integer the
    client sends as its score, and a single session scored [2^53 + 1] is
    reported with the average [2^53], which is not its mean. *)
Example average_beyond_double_precision :
  let db := snd (serve
                   (save_session (runtime := sample_runtime) alice
                      (sample_session "beginner" (2 ^ 53 + 1)))
                   registered_db [] sample_now) in
  map s_score_percent (tier_sessions db 1 "beginner") = [Integer (2 ^ 53 + 1)] /\
  exists stats,
    fst (get_tracking_stats (runtime := sample_runtime) 1 (connect db [] sample_now))
      = Ok stats /\
    stats !! "beginner" = Some {| average := 2 ^ 53; count := 1 |}.
Proof.
  split; [vm_compute; reflexivity|].
  eexists. split; [by rewrite get_tracking_stats_eq|].
  vm_compute; reflexivity.
Qed.

(** C9, as stated, fails: a request that carries both fields, the username
    being the empty text, names no registered user and is still answered
    400, and no user is created. *)
Lemma register_blank_username_rejected :
  assoc "username" blank_registration = Some (JStr "") /\
  assoc "password" blank_registration = Some (JStr "secret123") /\
  (Text "" ∉ map u_username (user_table registered_db)) /\
  serve (register (runtime := sample_runtime) (JObj blank_registration))
        registered_db [] sample_now
    = (Ok (400, error_json "Username and password are required."), registered_db).
Proof.
  repeat split.
  vm_compute. intros Hin. inversion Hin as [|? ? ? Hnil]; subst. inversion Hnil.
Qed.

Lemma register_outcome_witness :
  serve (register (runtime := sample_runtime)
           (JObj [("username", JStr "alice"); ("password", JStr "secret123")]))
        registered_db [] sample_now
  = register_contract (runtime := sample_runtime) registered_db
      (Some "alice") (Some "secret123").
Proof.
  apply (register_outcome (runtime := sample_runtime) registered_db
           (JObj [("username", JStr "alice"); ("password", JStr "secret123")])
           (Some "alice") (Some "secret123") sample_now).
  - reflexivity.
  - reflexivity.
Defined.

(** Registering alice, then alice again, then nobody. *)
Example register_scenario :
  fst (serve (register (runtime := sample_runtime)
                (JObj [("username", JStr "alice"); ("password", JStr "secret123")]))
             empty_database [] sample_now)
    = Ok (201, message_json "Registration successful!") /\
  fst (serve (register (runtime := sample_runtime)
                (JObj [("username", JStr "alice"); ("password", JStr "other")]))
             registered_db [] sample_now)
    = Ok (409, error_json "User alice is already registered.") /\
  fst (serve (register (runtime := sample_runtime) (JObj [("username", JStr "carol")]))
             registered_db [] sample_now)
    = Ok (400, error_json "Username and password are required.").
Proof. vm_compute. repeat split. Qed.

Lemma unknown_mode_listed_not_tracked_witness :
  (exists header,
     header ∈ session_table (close_db expert_connection) /\
     s_id header = created_id one_session_db /\ s_user_id header = 1 /\
     s_mode header = Text "expert") /\
  (exists sessions summary,
     fst (get_user_sessions 1 (connect (close_db expert_connection) [] sample_now))
       = Ok sessions /\
     summary ∈ sessions /\
     getitem summary "id" = Ok (JNum (created_id one_session_db)) /\
     getitem summary "mode" = Ok (JStr "expert")) /\
  (forall u,
     fst (get_tracking_stats (runtime := sample_runtime) u
            (connect (close_db expert_connection) [] sample_now)) =
     fst (get_tracking_stats (runtime := sample_runtime) u
            (connect one_session_db [] sample_now))).
Proof.
  apply (unknown_mode_listed_not_tracked (runtime := sample_runtime) 1
           (sample_session "expert" 55) one_session_db [] "2024-05-02 09:00:00"
           sample_now expert_connection "expert").
  - reflexivity.
  - apply (bool_decide_unpack _). vm_compute. exact I.
  - vm_compute. reflexivity.
Defined.

(** The listing after the two saves, newest first. *)
Example sessions_after_expert :
  fst (get_user_sessions 1 (connect (close_db expert_connection) [] sample_now)) =
  Ok [JObj [("id", JNum 2); ("mode", JStr "expert"); ("score_percent", JNum 55);
            ("date_formatted", JStr "2024-05-02 09:00")];
      JObj [("id", JNum 1); ("mode", JStr "beginner"); ("score_percent", JNum 80);
            ("date_formatted", JStr "2024-05-01 10:30")]].
Proof. vm_compute. reflexivity. Qed.

(** * Further properties of the code *)

(** ** The word-set builder: calls made, levels, typed worlds *)

Lemma probe_candidates_calls net l items h :
  exists calls,
    snd (probe_candidates net l items h) = h ++ calls /\
    Forall (fun call => is_datamuse (fst call) = false) calls /\
    (length calls <= length items)%nat.
Proof.
  revert h. induction items as [|word_data rest IH]; intros h; simpl.
  - exists []. by rewrite app_nil_r.
  - unfold bind at 1, lift.
    destruct (getitem word_data "word") as [w|e].
    + unfold bind at 1. rewrite get_word_details_eq.
      set (call := (GetDictionaryEntry w, net h (GetDictionaryEntry w))).
      destruct (lookup_result w (net h (GetDictionaryEntry w))) as [[d|]|e]; simpl.
      * exists [call]. repeat split; [by repeat constructor|simpl; lia].
      * destruct (IH (h ++ [call])) as (calls & -> & Hall & Hlen).
        exists (call :: calls). rewrite <- app_assoc. repeat split; [by constructor|simpl; lia].
      * exists [call]. repeat split; [by repeat constructor|simpl; lia].
    + exists []. rewrite app_nil_r. repeat split; [constructor|simpl; lia].
Qed.

Lemma letter_step_calls net p ws l h :
  exists calls,
    snd (letter_step net p ws l h) =
      h ++ (datamuse_request p l, net h (datamuse_request p l)) :: calls /\
    Forall (fun call => is_datamuse (fst call) = false) calls /\
    (length calls <= 6)%nat.
Proof.
  set (first := (datamuse_request p l, net h (datamuse_request p l))).
  assert (Hq : exists calls,
             snd (query_candidates net p l h) = h ++ first :: calls /\
             Forall (fun call => is_datamuse (fst call) = false) calls /\
             (length calls <= 5)%nat).
  { rewrite query_candidates_eq. fold first.
    assert (Hnone : forall (r : res (option details)),
              exists calls, snd (r, h ++ [first]) = h ++ first :: calls /\
                Forall (fun call => is_datamuse (fst call) = false) calls /\
                (length calls <= 5)%nat).
    { intros r. exists []. repeat split; [constructor|simpl; lia]. }
    destruct (net h (datamuse_request p l)) as [|status_code body]; [apply Hnone|].
    destruct (error_status status_code); [apply Hnone|].
    destruct (truthy body); [|apply Hnone].
    destruct body as [| | | |items|]; try apply Hnone.
    destruct (probe_candidates_calls net l (take 5 items) (h ++ [first]))
      as (calls & -> & Hall & Hlen).
    exists calls. rewrite <- app_assoc. repeat split; [done|].
    rewrite length_take in Hlen. lia. }
  destruct Hq as (calls & Hsnd & Hall & Hlen). rewrite letter_step_eq.
  destruct (query_candidates net p l h) as [[[d|]|e] h1]; simpl in Hsnd; subst h1.
  - exists calls. repeat split; [done|lia].
  - destruct (fallback_words !! l) as [fallback|]; [|exists calls; repeat split; [done|lia]].
    rewrite get_word_details_eq.
    set (call := (GetDictionaryEntry (JStr fallback), _)).
    exists (calls ++ [call]).
    assert (Hsnd : forall (A : Type) (r : res A),
              snd (r, (h ++ first :: calls) ++ [call]) = h ++ first :: calls ++ [call]).
    { intros. simpl. by rewrite <- app_assoc. }
    split; [|split; [apply Forall_app; split; [done|by repeat constructor]|
                     rewrite length_app; simpl; lia]].
    destruct (lookup_result (JStr fallback) _) as [[d|]|e]; apply Hsnd.
  - exists calls. repeat split; [done|lia].
Qed.

Lemma datamuse_calls_app h1 h2 :
  datamuse_calls (h1 ++ h2) = datamuse_calls h1 ++ datamuse_calls h2.
Proof. unfold datamuse_calls. by rewrite map_app, filter_app. Qed.

Lemma datamuse_calls_lookups calls :
  Forall (fun call => is_datamuse (fst call) = false) calls -> datamuse_calls calls = [].
Proof.
  unfold datamuse_calls. induction 1 as [|call calls Hcall _ IH]; simpl; [done|].
  rewrite filter_cons_False; [done|]. by rewrite Hcall.
Qed.

(** The level always resolves to one of the three parameter sets. *)
Lemma level_params_Ok level :
  exists p, level_params level = Ok p /\ md p = "f" /\ max p ∈ [1000; 500; 100].
Proof.
  unfold level_params, subscript.
  assert (Hb : difficulty_params !! "beginner" = Some (Params "f" 1000))
    by (vm_compute; reflexivity).
  rewrite Hb. simpl. eexists. split; [reflexivity|].
  destruct (decide (level = "beginner")) as [->|H1].
  { rewrite Hb. simpl. split; [done|]. left. }
  unfold difficulty_params. rewrite lookup_insert_ne by done.
  destruct (decide (level = "intermediate")) as [->|H2].
  { rewrite lookup_insert_eq. simpl. split; [done|]. right. left. }
  rewrite lookup_insert_ne by done.
  destruct (decide (level = "proficient")) as [->|H3].
  { rewrite lookup_singleton_eq. simpl. split; [done|]. right. right. left. }
  rewrite lookup_singleton_ne by done. simpl. split; [done|]. left.
Qed.

Lemma for_letters_calls net p ls ws h :
  exists calls,
    snd (for_letters net p ls ws h) = h ++ calls /\
    (length calls <= 7 * length ls)%nat /\
    datamuse_calls calls `prefix_of` map (datamuse_request p) ls /\
    (forall ws', fst (for_letters net p ls ws h) = Ok ws' ->
                 datamuse_calls calls = map (datamuse_request p) ls).
Proof.
  revert ws h. induction ls as [|l ls IH]; intros ws h; simpl.
  - exists []. rewrite app_nil_r. repeat split; done.
  - unfold bind at 1 2.
    destruct (letter_step_calls net p ws l h) as (calls & Hsnd & Hall & Hlen).
    assert (Hdm : datamuse_calls
                    ((datamuse_request p l, net h (datamuse_request p l)) :: calls)
                  = [datamuse_request p l]).
    { change (_ :: calls) with ([(datamuse_request p l, net h (datamuse_request p l))] ++ calls).
      rewrite datamuse_calls_app, (datamuse_calls_lookups calls) by done.
      unfold datamuse_calls. simpl. done. }
    destruct (letter_step net p ws l h) as [[ws1|e] h1]; simpl in Hsnd; subst h1.
    + destruct (IH ws1 (h ++ (datamuse_request p l, net h (datamuse_request p l)) :: calls))
        as (calls' & Hsnd' & Hlen' & Hpre & Hall').
      eexists (_ :: calls ++ calls'). rewrite Hsnd'.
      split; [by rewrite <- app_assoc|]. split; [simpl; rewrite length_app; lia|].
      change (?x :: calls ++ calls') with ((x :: calls) ++ calls').
      rewrite datamuse_calls_app, Hdm. simpl.
      split; [by apply prefix_cons|]. intros ws' Hok. f_equal. by eapply Hall'.
    + eexists (_ :: calls). simpl. split; [done|]. split; [lia|].
      rewrite Hdm. split; [|done]. apply prefix_cons, prefix_nil.
Qed.

(** X1. Whatever the two services answer, and whether the build returns or
    stops with an exception, [GET /api/words/<level>] makes at most 7 calls
    per letter (182 in all), and none at all for an anonymous request; the
    candidate source is asked about a prefix of the alphabet, one request
    per letter in order, with the pattern of the letter and the parameters
    of the level -- about all 26 letters when the build returns. *)
Theorem get_words_calls net session level h :
  exists p calls,
    level_params level = Ok p /\
    snd (get_words net session level h) = h ++ calls /\
    (length calls <= 182)%nat /\
    (session = None -> calls = []) /\
    datamuse_calls calls `prefix_of` map (datamuse_request p) ascii_uppercase /\
    (forall ident r,
       session = Some ident -> fst (get_words net session level h) = Ok r ->
       datamuse_calls calls = map (datamuse_request p) ascii_uppercase).
Proof.
  destruct (level_params_Ok level) as (p & Hp & _). exists p.
  unfold get_words. destruct session as [ident|].
  - unfold build_words, bind, lift. rewrite Hp.
    destruct (for_letters_calls net p ascii_uppercase [] h)
      as (calls & Hsnd & Hlen & Hpre & Hall).
    exists calls. split; [done|].
    destruct (for_letters net p ascii_uppercase [] h) as [[ws|e] h'];
      simpl in *; subst h'; (split; [done|]); (split; [lia|]);
      (split; [done|]); (split; [done|]).
    + intros _ r _ _. by eapply Hall.
    + intros _ r _ [=].
  - exists []. simpl. rewrite app_nil_r. repeat split; try done; [lia|apply prefix_nil].
Qed.

Lemma difficulty_params_unknown level :
  level ∉ levels -> difficulty_params !! level = None.
Proof.
  unfold levels. rewrite !not_elem_of_cons. intros (H1 & H2 & H3 & _).
  unfold difficulty_params.
  rewrite !lookup_insert_ne by done. by apply lookup_singleton_ne.
Qed.

(** X2. A level that is none of the three names is not an error: the word
    set is built exactly as for "beginner" -- the same calls with the same
    parameters, the same answer. *)
Theorem get_words_unknown_level net session level h :
  level ∉ levels ->
  get_words net session level h = get_words net session "beginner" h.
Proof.
  intros Hlevel.
  assert (Hp : level_params level = level_params "beginner");
    [|unfold get_words, build_words; by rewrite Hp].
  unfold level_params, subscript. rewrite (difficulty_params_unknown level Hlevel).
  assert (Hb : difficulty_params !! "beginner" = Some (Params "f" 1000))
    by (vm_compute; reflexivity).
  by rewrite Hb.
Qed.

(** On dicts, the scan for an example never raises. *)
Lemma scan_definitions_typed ds ex :
  forallb is_dict ds = true -> exists e, scan_definitions ds ex = Ok e.
Proof.
  induction ds as [|d ds IH]; simpl; [by eexists|].
  intros [Hd Hds]%andb_prop. destruct d as [| | | | |fields]; try discriminate. simpl.
  case_bool_decide as Hsome; [|by apply IH].
  destruct Hsome as [v ->]. by eexists.
Qed.

Lemma scan_meanings_typed ms ex :
  forallb typed_meaning ms = true ->
  (exists e, scan_meanings ms ex = Ok e) \/ scan_meanings ms ex = Raise KeyError.
Proof.
  revert ex. induction ms as [|m ms IH]; intros ex; simpl; [left; by eexists|].
  intros [Hm Hms]%andb_prop. destruct m as [| | | | |fields]; try discriminate.
  simpl in *. destruct (assoc "definitions" fields) as [[| | | |ds|]|]; try discriminate;
    simpl; [|by right].
  destruct (scan_definitions_typed ds ex Hm) as [e ->]. simpl.
  destruct (differs_from_no_example e); [left; by eexists|by apply IH].
Qed.

(** A response of the documented types is parsed, or fails with one of the
    two exceptions the lookup handles. *)
Lemma parse_details_typed w body :
  typed_body body = true ->
  (exists d, parse_details (JStr w) body = Ok d) \/
  (exists e, parse_details (JStr w) body = Raise e /\ lookup_handled e = true).
Proof.
  unfold parse_details.
  destruct body as [| | | |[|entry rest]|]; try discriminate; simpl;
    [right; by eexists..| |right; by eexists].
  intros [He _]%andb_prop. destruct entry as [| | | | |entry]; try discriminate.
  simpl in *.
  destruct (assoc "meanings" entry) as [[| | | |[|m ms]|]|] eqn:Hms; try discriminate;
    simpl; [right; by eexists| |right; by eexists].
  pose proof He as Hall. simpl in He. apply andb_prop in He as [Hm _].
  destruct m as [| | | | |m]; try discriminate. simpl in Hm. simpl.
  destruct (assoc "definitions" m) as [[| | | |[|d ds]|]|] eqn:Hds; try discriminate;
    simpl; [right; by eexists| |right; by eexists].
  simpl in Hm. apply andb_prop in Hm as [Hd _].
  destruct d as [| | | | |d]; try discriminate. simpl.
  destruct (assoc "definition" d) as [text|]; simpl; [|right; by eexists].
  destruct (scan_meanings_typed (JObj m :: ms) (JStr no_example) Hall) as [[e He]|He];
    simpl in He; rewrite Hds in He; simpl in He; rewrite He; simpl.
  - left. by eexists.
  - right. by eexists.
Qed.

Lemma typed_lookup_returns w r :
  typed_reply r = true -> exists found, lookup_result (JStr w) r = Ok found.
Proof.
  destruct r as [|status_code body]; simpl; [by eexists|].
  destruct (error_status status_code); simpl; [by eexists|].
  intros [[d ->]|(e & -> & ->)]%(parse_details_typed w); by eexists.
Qed.

Lemma typed_world_tame net : typed_world net -> tame net.
Proof.
  intros [Hsrc Hdict]. split; [done|]. intros h w. apply typed_lookup_returns, Hdict.
Qed.

(** X3. When both services answer with the documented types -- the
    candidate source with a list of dicts carrying a text under ['word'],
    the dictionary with a list of entry dicts whose ['meanings'] and
    ['definitions'], where present, are lists of dicts -- the build never
    stops with an exception, however many fields are missing and however
    often the services fail: a signed-in caller gets 200 and a list. *)
Theorem get_words_typed_world net ident level h :
  typed_world net ->
  exists items, fst (get_words net (Some ident) level h) = Ok (200, JArr items).
Proof.
  intros Htyped%typed_world_tame.
  destruct (get_words_returns net (Some ident) level h Htyped) as (status & body & h' & Hw).
  revert Hw. unfold get_words, build_words, bind, lift, ret.
  destruct (level_params level) as [p|e]; [|discriminate].
  destruct (for_letters net p ascii_uppercase [] h) as [[ws|e] h1]; [|discriminate].
  intros _. by eexists.
Qed.

Lemma typed_net_typed : typed_world typed_net.
Proof.
  split.
  - intros h sp md max. simpl. by destruct (String.eqb sp "a*").
  - intros h w. simpl. by destruct (is_str "apple" w).
Qed.

Lemma get_words_typed_world_witness :
  exists items, fst (get_words typed_net alice "intermediate" []) = Ok (200, JArr items).
Proof.
  apply (get_words_typed_world typed_net (Identity 1 (JStr "alice")) "intermediate" []).
  exact typed_net_typed.
Defined.

Lemma get_words_unknown_level_witness :
  get_words sample_net alice "expert" [] = get_words sample_net alice "beginner" [].
Proof.
  apply (get_words_unknown_level sample_net alice "expert" []).
  apply (bool_decide_unpack _). vm_compute. exact I.
Defined.

(** ** Exceptions that escape *)

Lemma getitem_Raise x k e : getitem x k = Raise e -> e = KeyError \/ e = TypeError.
Proof.
  destruct x; simpl; try (intros [= <-]; by right).
  destruct (assoc k fields); [discriminate|]. intros [= <-]. by left.
Qed.

Lemma getitem0_Raise x e :
  getitem0 x = Raise e -> e = KeyError \/ e = IndexError \/ e = TypeError.
Proof.
  destruct x as [| | |[|c s]|[|v items]|]; simpl; try discriminate; intros [= <-]; auto.
Qed.

Lemma iter_Raise x e : iter x = Raise e -> e = TypeError.
Proof. destruct x; simpl; try discriminate; by intros [= <-]. Qed.

Lemma contains_Raise k x e : contains k x = Raise e -> e = TypeError.
Proof. destruct x; simpl; try discriminate; by intros [= <-]. Qed.

Lemma scan_definitions_Raise ds ex e :
  scan_definitions ds ex = Raise e -> e = KeyError \/ e = TypeError.
Proof.
  induction ds as [|d ds IH]; simpl; [discriminate|].
  destruct (contains "example" d) as [[]|e'] eqn:Hc; simpl.
  - apply getitem_Raise.
  - exact IH.
  - intros [= <-]. right. by eapply contains_Raise.
Qed.

Lemma scan_meanings_Raise ms ex e :
  scan_meanings ms ex = Raise e -> e = KeyError \/ e = TypeError.
Proof.
  revert ex. induction ms as [|m ms IH]; intros ex; simpl; [discriminate|].
  destruct (getitem m "definitions") as [defs|e'] eqn:Hd; simpl;
    [|intros [= <-]; by eapply getitem_Raise].
  destruct (iter defs) as [items|e'] eqn:Hi; simpl;
    [|intros [= <-]; right; by eapply iter_Raise].
  destruct (scan_definitions items ex) as [ex'|e'] eqn:Hs; simpl;
    [|intros [= <-]; by eapply scan_definitions_Raise].
  destruct (differs_from_no_example ex'); [discriminate|apply IH].
Qed.

(** What parsing a response can raise: the two handled exceptions, a
    [TypeError] on a value of the wrong type, and an [AttributeError] when
    the word looked up is not a text. *)
Lemma parse_details_Raise w body e :
  parse_details w body = Raise e ->
  lookup_handled e = true \/ e = TypeError \/
  (e = AttributeError /\ forall s, w <> JStr s).
Proof.
  unfold parse_details.
  destruct (getitem0 body) as [data|e'] eqn:H0; simpl;
    [|intros [= <-]; apply getitem0_Raise in H0 as [-> | [-> | ->]]; auto].
  destruct (getitem data "meanings") as [meanings|e'] eqn:H1; simpl;
    [|intros [= <-]; apply getitem_Raise in H1 as [-> | ->]; auto].
  destruct (getitem0 meanings) as [m|e'] eqn:H2; simpl;
    [|intros [= <-]; apply getitem0_Raise in H2 as [-> | [-> | ->]]; auto].
  destruct (getitem m "definitions") as [defs|e'] eqn:H3; simpl;
    [|intros [= <-]; apply getitem_Raise in H3 as [-> | ->]; auto].
  destruct (getitem0 defs) as [d|e'] eqn:H4; simpl;
    [|intros [= <-]; apply getitem0_Raise in H4 as [-> | [-> | ->]]; auto].
  destruct (getitem d "definition") as [text|e'] eqn:H5; simpl;
    [|intros [= <-]; apply getitem_Raise in H5 as [-> | ->]; auto].
  destruct (iter meanings) as [items|e'] eqn:H6; simpl;
    [|intros [= <-]; apply iter_Raise in H6 as ->; auto].
  destruct (scan_meanings items (JStr no_example)) as [ex|e'] eqn:H7; simpl;
    [|intros [= <-]; apply scan_meanings_Raise in H7 as [-> | ->]; auto].
  destruct w; simpl; try discriminate; intros [= <-]; right; right; by split.
Qed.

Lemma lookup_result_Raise w r e :
  lookup_result w r = Raise e ->
  e = TypeError \/ (e = AttributeError /\ forall s, w <> JStr s).
Proof.
  unfold lookup_result. destruct r as [|status_code body]; [discriminate|].
  destruct (error_status status_code); [discriminate|].
  destruct (parse_details w body) as [d|e'] eqn:Hp; [discriminate|].
  destruct (lookup_handled e') eqn:Hh; [discriminate|]. intros [= <-].
  apply parse_details_Raise in Hp as [Hh'|Hp]; [congruence|done].
Qed.

(** X4. [get_word_details] lets only two exceptions through: a [TypeError],
    raised on a response with a value of the wrong type, and an
    [AttributeError], raised by [word.capitalize()] and only when the word
    it was given is not a text.  A transport error, an error status, a
    missing key and an empty list never escape it. *)
Theorem get_word_details_raises net w h e :
  fst (get_word_details net w h) = Raise e ->
  e = TypeError \/ (e = AttributeError /\ forall s, w <> JStr s).
Proof.
  rewrite get_word_details_eq. apply lookup_result_Raise.
Qed.

Lemma get_word_details_raises_witness :
  AttributeError = TypeError \/ (AttributeError = AttributeError /\ forall s, JNum 7 <> JStr s).
Proof.
  apply (get_word_details_raises (fun _ _ => Response 200 apple_entry) (JNum 7) []).
  vm_compute. reflexivity.
Defined.

Lemma probe_candidates_Raise net l items h e :
  fst (probe_candidates net l items h) = Raise e ->
  e = KeyError \/ e = TypeError \/ e = AttributeError.
Proof.
  revert h. induction items as [|word_data rest IH]; intros h; simpl; [discriminate|].
  unfold bind at 1, lift.
  destruct (getitem word_data "word") as [w|e'] eqn:Hw; simpl.
  - unfold bind at 1.
    destruct (get_word_details net w h) as [[[d|]|e'] h1] eqn:Hd; simpl.
    + discriminate.
    + apply IH.
    + intros [= <-]. rewrite get_word_details_eq in Hd. injection Hd as Hd _.
      apply lookup_result_Raise in Hd as [->|[-> _]]; auto.
  - intros [= <-]. apply getitem_Raise in Hw as [-> | ->]; auto.
Qed.

Lemma letter_step_Raise net p ws l h e :
  fst (letter_step net p ws l h) = Raise e ->
  e = KeyError \/ e = TypeError \/ e = AttributeError.
Proof.
  rewrite letter_step_eq.
  destruct (query_candidates net p l h) as [[[d|]|e'] h1] eqn:Hq.
  - discriminate.
  - destruct (fallback_words !! l) as [fallback|]; [|intros [= <-]; auto].
    destruct (get_word_details net (JStr fallback) h1) as [[[d|]|e'] h2] eqn:Hd;
      try discriminate.
    intros [= <-]. rewrite get_word_details_eq in Hd. injection Hd as Hd _.
    apply lookup_result_Raise in Hd as [->|[-> _]]; auto.
  - intros [= <-]. apply (f_equal fst) in Hq. revert Hq.
    rewrite query_candidates_eq.
    destruct (net h (datamuse_request p l)) as [|status_code body]; [discriminate|].
    destruct (error_status status_code); [discriminate|].
    destruct (truthy body); [|discriminate].
    destruct body; simpl; try (intros [= <-]; auto).
    apply probe_candidates_Raise.
Qed.

Lemma for_letters_Raise net p ls ws h e :
  fst (for_letters net p ls ws h) = Raise e ->
  e = KeyError \/ e = TypeError \/ e = AttributeError.
Proof.
  revert ws h. induction ls as [|l ls IH]; intros ws h; simpl; [discriminate|].
  unfold bind at 1.
  destruct (letter_step net p ws l h) as [[ws1|e'] h1] eqn:Hstep.
  - apply IH.
  - simpl. intros [= <-]. apply (f_equal fst) in Hstep. by eapply letter_step_Raise.
Qed.

(** X5. When [GET /api/words/<level>] fails instead of answering, the
    exception is a [KeyError] (a candidate without a ['word']), a
    [TypeError] (a value of the wrong type in a response) or an
    [AttributeError] (a candidate word that is not a text): whatever the
    two services do, their transport errors and error statuses are all
    absorbed, and so is every [IndexError]. *)
Theorem get_words_raises net session level h e :
  fst (get_words net session level h) = Raise e ->
  e = KeyError \/ e = TypeError \/ e = AttributeError.
Proof.
  unfold get_words. destruct session as [ident|]; [|discriminate].
  unfold build_words, bind at 1, bind at 1, lift.
  destruct (level_params_Ok level) as (p & -> & _).
  destruct (for_letters net p ascii_uppercase [] h) as [[ws|e'] h1] eqn:Hloop;
    [discriminate|].
  simpl. intros [= <-]. apply (f_equal fst) in Hloop. by eapply for_letters_Raise.
Qed.

Lemma get_words_raises_witness :
  TypeError = KeyError \/ TypeError = TypeError \/ TypeError = AttributeError.
Proof.
  apply (get_words_raises malformed_net alice "beginner" []).
  vm_compute. reflexivity.
Defined.

(** ** The records of a word set *)

Lemma failed_lookups_prefix net ws h1 h2 :
  failed_lookups net ws h1 h2 -> h1 `prefix_of` h2.
Proof.
  induction 1 as [|w ws h1 hm h2 Hd _ IH]; [done|].
  rewrite get_word_details_eq in Hd. injection Hd as _ <-.
  etransitivity; [|exact IH]. by apply prefix_app_r.
Qed.

(** A record comes from the lookup, made in its slot, of a text whose
    capitalised form is the record's word. *)
Lemma letter_outcome_record net p l h d h' :
  letter_outcome net p l h (Some d) h' ->
  exists s d0 hb,
    d = set_letter l d0 /\ word d0 = capitalize s /\
    h `prefix_of` hb /\
    h' = hb ++ [(GetDictionaryEntry (JStr s), net hb (GetDictionaryEntry (JStr s)))].
Proof.
  assert (Hlookup : forall w hb d0 h2,
            get_word_details net w hb = (Ok (Some d0), h2) ->
            exists s, word d0 = capitalize s /\
              h2 = hb ++ [(GetDictionaryEntry (JStr s),
                           net hb (GetDictionaryEntry (JStr s)))]).
  { intros w hb d0 h2. rewrite get_word_details_eq. unfold lookup_result.
    destruct (net hb (GetDictionaryEntry w)) as [|status_code body] eqn:Hr; [done|].
    destruct (error_status status_code); [done|].
    destruct (parse_details w body) as [d1|e] eqn:Hp; [|by destruct (lookup_handled e)].
    intros [= <- <-]. apply parse_details_Ok in Hp as (_ & _ & Hw & _).
    destruct w as [| | |s| |]; simpl in Hw; try discriminate. injection Hw as <-.
    exists s. by rewrite Hr. }
  inversion 1 as [before wd after tried w d0 hb ? Hitems Hall Hfail Hw Hd
                 |tried fallback d0 hb ? Hall Hfail Hfb Hd|]; subst.
  - destruct (Hlookup _ _ _ _ Hd) as (s & Hs & ->). exists s, d0, hb.
    repeat split; [done|]. apply failed_lookups_prefix in Hfail.
    by eapply prefix_app_l.
  - destruct (Hlookup _ _ _ _ Hd) as (s & Hs & ->). exists s, d0, hb.
    repeat split; [done|]. apply failed_lookups_prefix in Hfail.
    by eapply prefix_app_l.
Qed.

(** The histories of the slots of a chain lie between its ends. *)
Lemma chained_prefix net p slots h h' :
  chained slots h h' -> Forall (slot_outcome net p) slots -> h `prefix_of` h'.
Proof.
  intros Hchain Hout. revert h Hchain.
  induction Hout as [|s slots Hs _ IH]; simpl; intros h; [by intros ->|].
  intros [<- Hchain]. etransitivity; [|by apply IH].
  eapply prefix_app_l, letter_outcome_prefix. exact Hs.
Qed.

Lemma chained_slot net p slots h h' s :
  chained slots h h' -> Forall (slot_outcome net p) slots -> s ∈ slots ->
  h `prefix_of` slot_start s /\ slot_end s `prefix_of` h'.
Proof.
  intros Hchain Hout. revert h Hchain.
  induction Hout as [|s0 slots Hs0 Hout IH]; simpl; intros h;
    [by intros _ ?%elem_of_nil|].
  intros [<- Hchain] [->|Hs]%elem_of_cons.
  - split; [done|]. by eapply chained_prefix.
  - destruct (IH _ Hchain Hs) as [Hstart Hend]. split; [|done].
    etransitivity; [|exact Hstart].
    eapply prefix_app_l, letter_outcome_prefix. exact Hs0.
Qed.

(** X6. Every record of the list [GET /api/words/<level>] answers with is a
    dict with exactly the keys ['word'], ['meaning'], ['example'] and
    ['letter'], in this order; its letter is one of A..Z; and its word is
    [s.capitalize()] for a text [s] that was looked up in the dictionary
    during this very build -- the call is in the history the build left,
    after the calls that were there before. *)
Theorem get_words_records net ident level h status body h' :
  get_words net (Some ident) level h = (Ok (status, body), h') ->
  exists items,
    body = JArr items /\
    Forall (fun item => exists s m e l hb,
              item = JObj [("word", JStr (capitalize s)); ("meaning", m); ("example", e);
                           ("letter", JStr l)] /\
              l ∈ ascii_uppercase /\
              h `prefix_of` hb /\
              (hb ++ [(GetDictionaryEntry (JStr s), net hb (GetDictionaryEntry (JStr s)))])
                `prefix_of` h') items.
Proof.
  unfold get_words, build_words, bind, lift, ret.
  destruct (level_params level) as [p|e]; [|discriminate].
  destruct (for_letters net p ascii_uppercase [] h) as [[ws|e] h1] eqn:Hloop;
    [|discriminate].
  intros [= <- <- <-]. eexists. split; [reflexivity|].
  apply for_letters_slots in Hloop as (slots & Hletters & Hchain & Hout & _ & ->);
    [|by apply Forall_forall].
  simpl. apply Forall_fmap, Forall_forall.
  intros d (sl & Hsl & Hd)%list_elem_of_omap.
  destruct (chained_slot _ _ _ _ _ _ Hchain Hout Hsl) as [Hstart Hend].
  rewrite Forall_forall in Hout. pose proof (Hout sl Hsl) as Hsl_out.
  unfold slot_outcome in Hsl_out. rewrite Hd in Hsl_out.
  destruct (letter_outcome_record _ _ _ _ _ _ Hsl_out) as (s & d0 & hb & -> & Hw & Hpre & Hhb).
  exists s, (meaning d0), (example d0), (slot_letter sl), hb.
  split; [simpl; unfold details_json; simpl; by rewrite Hw|].
  split; [rewrite <- Hletters; by apply (list_elem_of_fmap_2 slot_letter)|].
  split; [by etransitivity|]. by rewrite <- Hhb.
Qed.

Lemma get_words_records_witness :
  exists items,
    JArr [JObj [("word", JStr "Apple"); ("meaning", JStr "A common, round fruit.");
                ("example", JStr "We planted an apple."); ("letter", JStr "A")]]
      = JArr items /\
    Forall (fun item => exists s m e l hb,
              item = JObj [("word", JStr (capitalize s)); ("meaning", m); ("example", e);
                           ("letter", JStr l)] /\
              l ∈ ascii_uppercase /\
              [] `prefix_of` hb /\
              (hb ++ [(GetDictionaryEntry (JStr s),
                       sample_net hb (GetDictionaryEntry (JStr s)))])
                `prefix_of` snd (get_words sample_net alice "beginner" [])) items.
Proof.
  apply (get_words_records sample_net (Identity 1 (JStr "alice")) "beginner" [] 200 _
           (snd (get_words sample_net alice "beginner" []))).
  vm_compute. reflexivity.
Defined.

(** ** What a lookup returns *)

(** The scan ends on the example it started with or on an example sentence
    of one of the meanings. *)
Lemma scan_meanings_elem_of ms ex e :
  scan_meanings ms ex = Ok e ->
  e = ex \/ e ∈ omap definition_example (concat (map meaning_definitions ms)).
Proof.
  revert ex. induction ms as [|m rest IH]; intros ex; simpl.
  - intros [= <-]. by left.
  - intros Hscan. res_inv Hscan as a E. res_inv Hscan as a0 E0. res_inv Hscan as a1 E1.
    apply getitem_Ok in E as (fields & -> & Ea). simpl. rewrite Ea, omap_app.
    assert (Hm : a1 = ex \/
                 a1 ∈ omap definition_example (match a with JArr ds => ds | _ => [] end)).
    { destruct (scan_definitions_Ok _ _ _ E1) as [[_ ->]|Hhead]; [by left|right].
      destruct a as [| | |s|ds|fs]; simpl in E0; try discriminate.
      - rewrite (iter_no_array_examples (JStr s) a0) in Hhead; done.
      - injection E0 as <-. by apply head_Some_elem_of.
      - rewrite (iter_no_array_examples (JObj fs) a0) in Hhead; done. }
    destruct (differs_from_no_example a1).
    + injection Hscan as <-. destruct Hm as [->|Hm]; [by left|].
      right. apply elem_of_app. by left.
    + apply IH in Hscan as [->|Hrest].
      * destruct Hm as [->|Hm]; [by left|]. right. apply elem_of_app. by left.
      * right. apply elem_of_app. by right.
Qed.

Lemma parse_details_example w body d :
  parse_details w body = Ok d ->
  example d = JStr no_example \/ example d ∈ examples body.
Proof.
  unfold parse_details. intros Hp.
  res_inv Hp as data E. res_inv Hp as meanings Em.
  assert (Hm : (y ← getitem0 body; getitem y "meanings") = Ok meanings) by (by rewrite E).
  apply getitem0_getitem_Ok in Hm as (entry & rest & -> & Hmeanings).
  simpl in E. injection E as <-.
  res_inv Hp as m0 E0. res_inv Hp as defs Ed. res_inv Hp as d0 E1. res_inv Hp as text Et.
  res_inv Hp as items Ei. res_inv Hp as ex Ex. res_inv Hp as cap Ec. injection Hp as <-.
  simpl. unfold examples. simpl. rewrite Hmeanings.
  destruct meanings as [| | |s|ms|fs]; simpl in E0, Ei; try discriminate.
  - destruct s; [discriminate|]. injection E0 as <-. discriminate.
  - injection Ei as <-. by apply scan_meanings_elem_of.
Qed.

(** X20. A lookup that returns a record made exactly one call, for the
    text it was given, and got a response without an error status.  The
    record's word is that text capitalised, its meaning is the first
    definition of the first meaning of the response, it has no letter yet,
    and its example is either the placeholder or one of the example
    sentences of the response: nothing in a record is made up. *)
Theorem get_word_details_found net w h d h' :
  get_word_details net w h = (Ok (Some d), h') ->
  exists s status_code body,
    w = JStr s /\
    net h (GetDictionaryEntry w) = Response status_code body /\
    error_status status_code = false /\
    h' = h ++ [(GetDictionaryEntry w, Response status_code body)] /\
    word d = capitalize s /\
    first_meaning_text body = Some (meaning d) /\
    letter d = None /\
    (example d = JStr no_example \/ example d ∈ examples body).
Proof.
  rewrite get_word_details_eq. unfold lookup_result.
  destruct (net h (GetDictionaryEntry w)) as [|status_code body]; [done|].
  destruct (error_status status_code) eqn:Hstatus; [done|].
  destruct (parse_details w body) as [d0|e] eqn:Hp; [|by destruct (lookup_handled e)].
  intros [= <- <-].
  pose proof (parse_details_example _ _ _ Hp) as Hex.
  apply parse_details_Ok in Hp as (_ & Hm & Hw & Hl & _).
  destruct w as [| | |s| |]; simpl in Hw; try discriminate. injection Hw as Hw.
  by exists s, status_code, body.
Qed.

Lemma get_word_details_found_witness :
  exists s status_code body,
    JStr "apple" = JStr s /\
    sample_net [] (GetDictionaryEntry (JStr "apple")) = Response status_code body /\
    error_status status_code = false /\
    snd (get_word_details sample_net (JStr "apple") []) =
      [] ++ [(GetDictionaryEntry (JStr "apple"), Response status_code body)] /\
    "Apple" = capitalize s /\
    first_meaning_text body = Some (JStr "A common, round fruit.") /\
    (None : option string) = None /\
    (JStr "We planted an apple." = JStr no_example \/
     JStr "We planted an apple." ∈ examples body).
Proof.
  apply (get_word_details_found sample_net (JStr "apple") []
           {| word := "Apple"; meaning := JStr "A common, round fruit.";
              example := JStr "We planted an apple."; letter := None |}
           (snd (get_word_details sample_net (JStr "apple") []))).
  vm_compute. reflexivity.
Defined.

(** ** Registration and login *)

Section AuthProofs.
Context {runtime : Runtime} {checker : PasswordCheck}.

(** A value that is true and can be bound is not bound to [NULL]. *)
Lemma bind_param_truthy v v' : truthy v = true -> bind_param v = Ok v' -> v' <> Null.
Proof.
  destruct v; simpl; try discriminate.
  - by intros _ [= <-].
  - destruct ((- 2 ^ 63 <=? n) && (n <? 2 ^ 63)); [|discriminate]. by intros _ [= <-].
  - by intros _ [= <-].
Qed.

(** What [register] leaves behind, whatever the engine does: either it
    answers 201 and the store has one more user, whose name was free, or it
    answers something else (or raises) and nothing is committed. *)
Lemma register_inv data c r c' :
  register data c = (r, c') ->
  (r = Ok (201, message_json "Registration successful!") /\
   exists username password name hashed,
     get data "username" = Ok username /\ get data "password" = Ok password /\
     truthy username = true /\ truthy password = true /\
     bind_param username = Ok name /\ hash_password password = Ok hashed /\
     (name ∉ map u_username (user_table (working c))) /\
     committed c' = with_user (working c) name (Text hashed))
  \/ (r <> Ok (201, message_json "Registration successful!") /\
      committed c' = committed c).
Proof.
  unfold register, lift.
  unfold bind at 1. destruct (get data "username") as [username|e] eqn:Hu;
    [|intros [= <- <-]; by right].
  unfold bind at 1. destruct (get data "password") as [password|e] eqn:Hp;
    [|intros [= <- <-]; by right].
  destruct (truthy username) eqn:Htu; [|intros [= <- <-]; by right].
  destruct (truthy password) eqn:Htp; [|intros [= <- <-]; by right].
  cbn [negb orb].
  unfold bind at 1. destruct (bind_param username) as [name|e] eqn:Hb;
    [|intros [= <- <-]; by right].
  unfold bind at 1.
  destruct (query _ c) as [[existing|e] c1] eqn:Hq;
    apply query_inv in Hq as (Hc1 & Hw1 & Hk1 & Hex); [|intros [= <- <-]; by right].
  specialize (Hex _ eq_refl).
  destruct existing as [row|]; [intros [= <- <-]; by right|].
  symmetry in Hex. rewrite head_filter_None in Hex.
  unfold bind at 1.
  destruct (hash_password password) as [hashed|e] eqn:Hh; [|intros [= <- <-]; by right].
  unfold bind at 1.
  destruct (insert_user name (Text hashed) c1) as [[rowid|e] c2] eqn:Hi;
    apply insert_inv in Hi as (Hc2 & _ & Hw2);
    [|intros [= <- <-]; right; split; [done|congruence]].
  injection Hw2 as _ Hw2.
  unfold bind at 1.
  destruct (commit c2) as [[[]|e] c3] eqn:Hcommit; apply commit_inv in Hcommit;
    [|intros [= <- <-]; right; split; [done|congruence]].
  destruct Hcommit as [Hc3 _]. unfold ret. intros [= <- <-]. left. split; [done|].
  exists username, password, name, hashed. repeat split; try done.
  - intros (row & Hname & Hrow)%list_elem_of_fmap. by apply (Hex row).
  - rewrite Hc3, <- Hw2, Hw1. reflexivity.
Qed.

(** X7. [POST /api/register] is all or nothing, whatever the request
    carries and whatever the storage engine does: answered 201, it has
    added exactly one user, under a new id and a name no stored user had,
    with a text as password, and has touched nothing else; answered in any
    other way (400, 409, or an exception), it leaves the store exactly as
    it was. *)
Theorem register_atomic data db fs now :
  let out := serve (register data) db fs now in
  (fst out = Ok (201, message_json "Registration successful!") /\
   exists name hashed,
     snd out = with_user db name (Text hashed) /\
     name <> Null /\
     (name ∉ map u_username (user_table db)) /\
     next_rowid (map u_id (user_table db)) ∉ map u_id (user_table db))
  \/ (fst out <> Ok (201, message_json "Registration successful!") /\ snd out = db).
Proof.
  unfold serve.
  destruct (register data (connect db fs now)) as [r c] eqn:Hreg. simpl.
  apply register_inv in Hreg as [[-> Hreg]|[Hr Hc]]; [left|by right].
  destruct Hreg as (username & password & name & hashed & _ & _ & Htu & _ & Hb & _ & Hfree & Hc).
  split; [done|]. exists name, hashed. unfold close_db. repeat split; try done.
  - by eapply bind_param_truthy.
  - intros Hin%next_rowid_above. lia.
Qed.
(** X8. A registration answered 201 can be used at once: on a store that
    answers, and with a password check that accepts the hash of the
    password it was made from, logging in with the same request body is
    answered 200 with the username, signs the caller in under the id of the
    new user row, and leaves the store as registration left it;
    [check_auth] then reports that username. *)
Theorem register_then_login data db u p now now' session :
  get data "username" = Ok (JStr u) ->
  get data "password" = Ok (JStr p) ->
  check_password_hash (JStr (generate_password_hash p)) (JStr p) = Ok true ->
  fst (serve (register data) db [] now) = Ok (201, message_json "Registration successful!") ->
  let db' := snd (serve (register data) db [] now) in
  exists id,
    handle (login session data) db' [] now' =
      (Ok (200,
           JObj [("message", JStr ("Welcome back, " +:+ u +:+ "!")); ("username", JStr u)],
           Some (Identity id (JStr u))),
       db') /\
    UserRow id (Text u) (Text (generate_password_hash p)) ∈ user_table db' /\
    (id ∉ map u_id (user_table db)) /\
    check_auth (Some (Identity id (JStr u))) =
      (200, JObj [("isAuthenticated", JBool true); ("username", JStr u)]).
Proof.
  intros Hu Hp Hcheck. unfold serve.
  destruct (register data (connect db [] now)) as [r c] eqn:Hreg. simpl.
  intros ->. apply register_inv in Hreg as [[_ Hreg]|[Hr _]]; [|done].
  destruct Hreg as (username & password & name & hashed & Hu' & Hp' & _ & _
                    & Hb & Hh & Hfree & Hc).
  rewrite Hu in Hu'. injection Hu' as <-. rewrite Hp in Hp'. injection Hp' as <-.
  simpl in Hb, Hh. injection Hb as <-. injection Hh as <-.
  cbn [working connect] in Hfree, Hc. unfold close_db. rewrite Hc.
  set (id := next_rowid (map u_id (user_table db))).
  exists id. split; [|split; [|split]].
  - unfold handle, login, lift.
    unfold bind at 1. rewrite Hu. unfold bind at 1. rewrite Hp.
    unfold bind at 1. cbn [bind_param].
    unfold bind at 1. rewrite query_no_faults by done.
    cbn [working connect with_user user_table].
    rewrite filter_app, filter_none, filter_cons_True, filter_nil; cycle 1.
    { done. }
    { intros row Hrow [Hname _]. apply Hfree. rewrite <- Hname.
      by apply (list_elem_of_fmap_2 u_username). }
    cbn [app head u_password u_username u_id to_python].
    unfold bind at 1. rewrite Hcheck. reflexivity.
  - unfold with_user. simpl. apply elem_of_app. right. left.
  - intros Hin%next_rowid_above. unfold id in Hin. lia.
  - reflexivity.
Qed.

(** X9. [POST /api/login] never signs a caller in unchecked.  Whatever the
    request carries and whatever the engine does, when it answers it
    answers 401, with the session left as it was, or 200; and 200 only
    when a stored user has the submitted name (which is not null) and
    [check_password_hash] accepted the submitted password against that
    user's stored hash -- the session then carries that user's id and
    name.  In no case is anything committed. *)
Theorem login_sound session data c status body session' c' :
  login session data c = (Ok (status, body, session'), c') ->
  committed c' = committed c /\
  ((status = 401 /\ session' = session /\ exists msg, body = error_json msg) \/
   (status = 200 /\
    exists row username password,
      row ∈ user_table (working c) /\
      get data "username" = Ok username /\ get data "password" = Ok password /\
      bind_param username = Ok (u_username row) /\ u_username row <> Null /\
      check_password_hash (to_python (u_password row)) password = Ok true /\
      session' = Some (Identity (u_id row) (to_python (u_username row))))).
Proof.
  unfold login, lift.
  unfold bind at 1. destruct (get data "username") as [username|e] eqn:Hu; [|done].
  unfold bind at 1. destruct (get data "password") as [password|e] eqn:Hp; [|done].
  unfold bind at 1. destruct (bind_param username) as [name|e] eqn:Hb; [|done].
  unfold bind at 1.
  destruct (query _ c) as [[user|e] c1] eqn:Hq;
    apply query_inv in Hq as (Hc1 & Hw1 & Hk1 & Hex); [|done].
  specialize (Hex _ eq_refl).
  destruct user as [row|].
  - symmetry in Hex. apply head_Some_elem_of, list_elem_of_filter in Hex as [[Hname Hnull] Hrow].
    unfold bind at 1.
    destruct (check_password_hash (to_python (u_password row)) password) as [[]|e] eqn:Hcheck;
      [| |done]; unfold ret; intros [= <- <- <- <-]; (split; [done|]).
    + right. split; [done|]. exists row, username, password.
      rewrite Hname. by repeat split.
    + left. repeat split. by eexists.
  - unfold ret. intros [= <- <- <- <-]. split; [done|]. left. repeat split. by eexists.
Qed.

(** *** Handlers that only read *)

Lemma read_only_ret {A} (a : A) : read_only (ret a).
Proof. by intros c. Qed.

Lemma read_only_lift {A} (r : res A) : read_only (lift r).
Proof. by intros c. Qed.

Lemma read_only_bind {A B} (m : st connection A) (k : A -> st connection B) :
  read_only m -> (forall a, read_only (k a)) -> read_only (bind m k).
Proof.
  intros Hm Hk c. unfold bind. specialize (Hm c).
  destruct (m c) as [[a|e] c1]; simpl in *; [|done]. by rewrite Hk.
Qed.

Lemma read_only_query {A} (q : database -> A) : read_only (query q).
Proof.
  intros c. destruct (query q c) as [r c'] eqn:Hq.
  by apply query_inv in Hq as (? & _).
Qed.

Lemma read_only_get_user_sessions user_id : read_only (get_user_sessions user_id).
Proof.
  apply read_only_bind; [apply read_only_query|]. intros. apply read_only_ret.
Qed.

Lemma read_only_get_session_details user_id session_id :
  read_only (get_session_details user_id session_id).
Proof.
  apply read_only_bind; [apply read_only_query|]. intros [row|]; [|apply read_only_ret].
  apply read_only_bind; [apply read_only_query|]. intros words.
  apply read_only_bind; [apply read_only_query|]. intros quiz_data.
  apply read_only_bind; [apply read_only_lift|]. intros. apply read_only_ret.
Qed.

Lemma read_only_tracking_loop user_id ls stats : read_only (tracking_loop user_id ls stats).
Proof.
  revert stats. induction ls as [|level ls IH]; intros stats; simpl; [apply read_only_ret|].
  apply read_only_bind; [apply read_only_query|]. intros. apply IH.
Qed.

Lemma read_only_login session data : read_only (login session data).
Proof.
  repeat (apply read_only_bind; [apply read_only_lift|]; intros ?).
  apply read_only_bind; [apply read_only_query|]. intros [row|]; [|apply read_only_ret].
  apply read_only_bind; [apply read_only_lift|]. intros []; apply read_only_ret.
Qed.

(** X10. Four routes only read: whatever the caller sends, signed in or
    not, and whatever the engine does on any statement, [POST /api/login],
    [GET /api/sessions], [GET /api/sessions/<id>] and [GET /api/track]
    leave the stored state exactly as it was. *)
Theorem reading_routes_keep_store session data session_id db fs now :
  snd (handle (login session data) db fs now) = db /\
  snd (serve (get_sessions session) db fs now) = db /\
  snd (serve (get_session_detail session session_id) db fs now) = db /\
  snd (serve (get_tracking_data session) db fs now) = db.
Proof.
  assert (Hserve : forall (handler : st connection (Z * json)),
            read_only handler -> snd (serve handler db fs now) = db).
  { intros handler Hro. unfold serve. specialize (Hro (connect db fs now)).
    by destruct (handler (connect db fs now)) as [r c]. }
  repeat split.
  - unfold handle. pose proof (read_only_login session data (connect db fs now)) as Hro.
    by destruct (login session data (connect db fs now)) as [r c].
  - apply Hserve. destruct session as [ident|]; [|apply read_only_ret].
    apply read_only_bind; [apply read_only_get_user_sessions|]. intros. apply read_only_ret.
  - apply Hserve. destruct session as [ident|]; [|apply read_only_ret].
    apply read_only_bind; [apply read_only_get_session_details|].
    intros [d|]; apply read_only_ret.
  - apply Hserve. destruct session as [ident|]; [|apply read_only_ret].
    apply read_only_bind; [apply read_only_tracking_loop|]. intros. apply read_only_ret.
Qed.

(** ** Stores the application can reach *)

Lemma serve_register_inv data db fs now :
  snd (serve (register data) db fs now) = db \/
  exists name hashed,
    name <> Null /\ (name ∉ map u_username (user_table db)) /\
    snd (serve (register data) db fs now) = with_user db name (Text hashed).
Proof.
  unfold serve. destruct (register data (connect db fs now)) as [r c] eqn:Hreg. simpl.
  apply register_inv in Hreg as [[_ Hreg]|[_ Hc]]; [right|by left].
  destruct Hreg as (username & password & name & hashed & _ & _ & Htu & _ & Hb & _ & Hfree & Hc).
  exists name, hashed. split; [by eapply bind_param_truthy|]. by split.
Qed.

Lemma serve_save_session_inv session data db fs now :
  snd (serve (save_session session data) db fs now) = db \/
  exists user_id mode score_percent rows quiz_data,
    snd (serve (save_session session data) db fs now) =
    store db user_id mode score_percent now rows quiz_data.
Proof.
  unfold serve, save_session. destruct session as [ident|]; [|by left].
  unfold bind.
  destruct (save_session_data (session_user_id ident) data (connect db fs now))
    as [[[]|e] c] eqn:Hsave; apply save_session_data_inv in Hsave; simpl.
  - right. destruct Hsave as (mode & score & rows & quiz & _ & Hc & _).
    unfold close_db. rewrite Hc. by eexists _, _, _, _, _.
  - by left.
Qed.

Lemma with_user_ok db name hashed :
  users_ok db -> name <> Null -> name ∉ map u_username (user_table db) ->
  users_ok (with_user db name (Text hashed)).
Proof.
  intros (Hnames & Hids & Hrows) Hnull Hfree. unfold users_ok, with_user. simpl.
  change (map u_username (user_table db ++ ?l)) with (u_username <$> (user_table db ++ l)).
  change (map u_id (user_table db ++ ?l)) with (u_id <$> (user_table db ++ l)).
  rewrite !fmap_app. simpl. split; [|split].
  - apply NoDup_app. split; [done|]. split; [|apply NoDup_singleton].
    by intros x Hx ->%list_elem_of_singleton.
  - apply NoDup_app. split; [done|]. split; [|apply NoDup_singleton].
    intros x Hx ->%list_elem_of_singleton. apply next_rowid_above in Hx.
    change (u_id <$> user_table db) with (map u_id (user_table db)) in Hx. lia.
  - apply Forall_app. split; [done|]. repeat constructor; [done|]. by eexists.
Qed.

(** X11. In every store the application can reach -- from the empty one,
    through any sequence of registrations and session submissions, each
    with any payload and under any behaviour of the engine -- no two users
    share a name or an id, no user's name is null, and every stored
    password is a text. *)
Theorem reachable_users_ok db : reachable db -> users_ok db.
Proof.
  induction 1 as [|db data fs now _ IH|db session data fs now _ IH].
  - repeat split; constructor.
  - destruct (serve_register_inv data db fs now) as [->|(name & hashed & Hn & Hf & ->)];
      [done|]. by apply with_user_ok.
  - destruct (serve_save_session_inv session data db fs now)
      as [->|(u & m & s & rows & q & ->)]; [done|]. exact IH.
Qed.

Lemma next_rowid_seq n : next_rowid (map Z.of_nat (seq 1 n)) = Z.of_nat (S n).
Proof.
  unfold next_rowid.
  assert (Hmax : foldr Z.max 0 (map Z.of_nat (seq 1 n)) = Z.of_nat n); [|lia].
  induction n as [|n IH]; [done|].
  rewrite seq_S, map_app, foldr_app. simpl.
  assert (Hgen : forall l b, 0 <= b -> foldr Z.max b l = Z.max b (foldr Z.max 0 l)).
  { induction l as [|x l IHl]; intros b Hb; simpl; [lia|]. rewrite (IHl b Hb). lia. }
  rewrite Hgen, IH by lia. lia.
Qed.

(** X12. In every store the application can reach, the sessions are
    numbered 1, 2, 3, ... in the order they were saved, every session has
    exactly one quiz row (the quiz table lists the same ids in the same
    order), and every word row belongs to a stored session. *)
Theorem reachable_sessions_numbered db :
  reachable db ->
  map s_id (session_table db) = map Z.of_nat (seq 1 (length (session_table db))) /\
  map q_session_id (quiz_table db) = map s_id (session_table db) /\
  Forall (fun w => w_session_id w ∈ map s_id (session_table db)) (word_table db).
Proof.
  intros Hreach. split; [|split]; [| |by apply reachable_ok in Hreach as (_ & Hw & _)].
  - induction Hreach as [|db data fs now _ IH|db session data fs now _ IH]; [done| |].
    + destruct (serve_register_tables data db fs now) as (-> & _). exact IH.
    + destruct (serve_save_session_inv session data db fs now)
        as [->|(u & m & s & rows & q & ->)]; [done|].
      unfold store. cbn [session_table]. rewrite length_app. cbn [length].
      rewrite Nat.add_1_r, seq_S, !map_app, <- IH. cbn [map s_id Nat.add]. do 2 f_equal.
      unfold created_id. rewrite IH. apply next_rowid_seq.
  - induction Hreach as [|db data fs now _ IH|db session data fs now _ IH]; [done| |].
    + destruct (serve_register_tables data db fs now) as (-> & _ & ->). exact IH.
    + destruct (serve_save_session_inv session data db fs now)
        as [->|(u & m & s & rows & q & ->)]; [done|].
      unfold store. cbn [session_table quiz_table]. rewrite !map_app, IH. reflexivity.
Qed.

(** ** Listing sessions *)

Lemma string_compare_trans s1 s2 s3 :
  String.compare s1 s2 <> Gt -> String.compare s2 s3 <> Gt -> String.compare s1 s3 <> Gt.
Proof.
  revert s2 s3. induction s1 as [|c1 s1 IH]; intros [|c2 s2] [|c3 s3]; simpl; try done.
  unfold Ascii.compare.
  destruct (N.compare_spec (N_of_ascii c1) (N_of_ascii c2)) as [H12|H12|H12]; [| |done];
    (destruct (N.compare_spec (N_of_ascii c2) (N_of_ascii c3)) as [H23|H23|H23]; [| |done]);
    destruct (N.compare_spec (N_of_ascii c1) (N_of_ascii c3)) as [H13|H13|H13];
    try done; try lia.
  apply IH.
Qed.

Lemma not_older_trans a b c : not_older a b -> not_older b c -> not_older a c.
Proof.
  unfold not_older, String.ltb. intros Hab Hbc.
  pose proof (string_compare_trans (s_date c) (s_date b) (s_date a)) as Htrans.
  rewrite (String.compare_antisym (s_date a) (s_date b)) in Hab.
  rewrite (String.compare_antisym (s_date b) (s_date c)) in Hbc.
  rewrite (String.compare_antisym (s_date a) (s_date c)).
  destruct (String.compare (s_date c) (s_date b)); try done;
    destruct (String.compare (s_date b) (s_date a)); try done;
    destruct (String.compare (s_date c) (s_date a)); try done;
    exfalso; by apply Htrans.
Qed.

Lemma insert_by_date_perm r sorted : insert_by_date r sorted ≡ₚ r :: sorted.
Proof.
  induction sorted as [|x sorted IH]; simpl; [done|].
  destruct (String.ltb (s_date x) (s_date r)); [done|].
  rewrite IH. apply Permutation_swap.
Qed.

Lemma insert_by_date_sorted r sorted :
  StronglySorted not_older sorted -> StronglySorted not_older (insert_by_date r sorted).
Proof.
  induction 1 as [|x sorted Hsorted IH Hx]; simpl; [by repeat constructor|].
  destruct (String.ltb (s_date x) (s_date r)) eqn:Hlt.
  - assert (Hrx : not_older r x).
    { unfold not_older, String.ltb in *. rewrite String.compare_antisym.
      by destruct (String.compare (s_date x) (s_date r)). }
    constructor; [by constructor|]. constructor; [done|].
    eapply Forall_impl; [exact Hx|]. intros y Hy. by eapply not_older_trans.
  - constructor; [done|].
    rewrite insert_by_date_perm. by constructor.
Qed.

Lemma order_by_date_desc_sorted rows :
  order_by_date_desc rows ≡ₚ rows /\ StronglySorted not_older (order_by_date_desc rows).
Proof.
  unfold order_by_date_desc.
  assert (Hgen : forall acc, StronglySorted not_older acc ->
            foldl (fun sorted r => insert_by_date r sorted) acc rows ≡ₚ acc ++ rows /\
            StronglySorted not_older
              (foldl (fun sorted r => insert_by_date r sorted) acc rows)).
  { induction rows as [|r rows IH]; intros acc Hacc; simpl.
    - by rewrite app_nil_r.
    - destruct (IH (insert_by_date r acc)) as [Hperm Hsorted];
        [by apply insert_by_date_sorted|].
      split; [|done]. rewrite Hperm, insert_by_date_perm.
      simpl. apply Permutation_middle. }
  destruct (Hgen []) as [Hperm Hsorted]; [constructor|]. done.
Qed.

(** X13. On a store that answers, [GET /api/sessions] lists exactly the
    caller's sessions -- each one once, none of anybody else's -- newest
    first: no session of the list is older than one listed after it. *)
Theorem get_sessions_newest_first ident db now :
  exists rows,
    serve (get_sessions (Some ident)) db [] now =
      (Ok (200, JArr (map session_summary rows)), db) /\
    rows ≡ₚ filter (fun r => s_user_id r = session_user_id ident) (session_table db) /\
    StronglySorted not_older rows.
Proof.
  eexists. split; [|apply order_by_date_desc_sorted].
  unfold serve, get_sessions, get_user_sessions, bind.
  rewrite query_no_faults by done. reflexivity.
Qed.

(** ** Reading sessions back *)

(** Storing one more session changes nothing about the sessions that were
    there. *)
Lemma get_session_details_frame db user_id session_id owner mode score_percent now rows
    quiz_data now' :
  session_id <> created_id db ->
  fst (get_session_details user_id session_id
         (connect (store db owner mode score_percent now rows quiz_data) [] now')) =
  fst (get_session_details user_id session_id (connect db [] now')).
Proof.
  intros Hid. unfold get_session_details.
  unfold bind at 1 5. rewrite !query_no_faults by done.
  cbn [working connect store session_table].
  rewrite filter_app, (filter_cons_False _ (SessionRow _ _ _ _ _)), filter_nil, app_nil_r
    by (simpl; intros [? _]; congruence).
  destruct (head _) as [row|]; [|done].
  unfold bind at 1 4. rewrite !query_no_faults by done.
  cbn [working connect store word_table].
  rewrite filter_app,
    (filter_none _ (map _ rows)), app_nil_r
    by (intros w (r & -> & _)%list_elem_of_fmap; destruct r as [[[l t] m] e]; simpl; congruence).
  unfold bind at 1 3. rewrite !query_no_faults by done.
  cbn [working connect store quiz_table].
  rewrite filter_app, (filter_cons_False _ (QuizRow _ _)), filter_nil, app_nil_r
    by (simpl; congruence).
  unfold bind, lift, ret.
  by destruct (match head _ with Some r => json_loads (q_quiz_data r) | None => Ok (JArr []) end).
Qed.

(** X14. Saving a session disturbs no session already stored: whoever
    saves, whatever the payload and whatever the engine does during the
    save, [GET /api/sessions/<id>] answers every caller for every session
    id that existed before exactly as it did before. *)
Theorem save_session_frame session data db fs now reader session_id now' :
  session_id ∈ map s_id (session_table db) ->
  fst (serve (get_session_detail reader session_id)
         (snd (serve (save_session session data) db fs now)) [] now') =
  fst (serve (get_session_detail reader session_id) db [] now').
Proof.
  intros Hin%next_rowid_above.
  destruct (serve_save_session_inv session data db fs now)
    as [->|(u & m & s & rows & q & ->)]; [done|].
  unfold serve, get_session_detail. destruct reader as [ident|]; [|done].
  unfold bind.
  pose proof (get_session_details_frame db (session_user_id ident) session_id
                u m s now rows q now') as Hframe.
  destruct (get_session_details _ _ (connect (store _ _ _ _ _ _ _) _ _)) as [r1 c1].
  destruct (get_session_details _ _ (connect db _ _)) as [r2 c2].
  simpl in Hframe. rewrite Hframe by (unfold created_id; lia).
  by destruct r2 as [[d|]|e].
Qed.

(** X15. On a store that answers, [GET /api/sessions/<id>] says 404
    exactly when no stored session has that id and belongs to the caller:
    a caller is never refused a session of their own. *)
Theorem session_detail_404_iff ident session_id db now :
  fst (serve (get_session_detail (Some ident) session_id) db [] now) =
    Ok (404, error_json "Session not found or access denied.")
  <-> forall r, r ∈ session_table db ->
                ~ (s_id r = session_id /\ s_user_id r = session_user_id ident).
Proof.
  split.
  - unfold serve, get_session_detail, get_session_details.
    unfold bind at 1 2. rewrite query_no_faults by done. cbn [working connect].
    destruct (head _) as [row|] eqn:Hhead;
      [|intros _; by rewrite head_filter_None in Hhead].
    unfold bind at 1. rewrite query_no_faults by done.
    unfold bind at 1. rewrite query_no_faults by done.
    unfold bind, lift, ret.
    by destruct (match head _ with Some r => json_loads (q_quiz_data r) | None => Ok (JArr []) end).
  - intros Hnone. unfold serve, get_session_detail, bind.
    by rewrite get_session_details_not_owned.
Qed.

(** ** Tracking statistics, continued *)










(** ** What a submission must carry *)

(** X19. On a store that answers, [POST /api/sessions] accepts a signed-in
    caller's payload exactly when it can be read and bound: it has the keys
    ['mode'], ['scorePercent'], ['words'] and ['quiz'], its words can be
    iterated and each has the four keys of a word, and every value to
    store is one SQLite can bind.  Nothing else is checked: not the mode
    against the tiers, not the score against a range, not the number of
    words. *)
Theorem save_session_accepts ident data db now :
  fst (serve (save_session (Some ident) data) db [] now) =
    Ok (201, message_json "Session saved successfully.")
  <-> exists mode score_percent rows quiz,
        read_session data = Ok (mode, score_percent, rows, quiz).
Proof.
  unfold serve, save_session, bind. split.
  - destruct (save_session_data (session_user_id ident) data (connect db [] now))
      as [[[]|e] c] eqn:Hsave; [|done].
    apply save_session_data_inv in Hsave as (mode & score & rows & quiz & Hread & _).
    intros _. by exists mode, score, rows, quiz.
  - intros (mode & score & rows & quiz & Hread).
    by rewrite (save_session_data_no_faults _ _ _ _ _ _ _ _ Hread).
Qed.

End AuthProofs.

(** ** The further properties on sample stores *)

Lemma register_then_login_witness :
  exists id,
    handle (login (checker := sample_checker) None
              alice_credentials)
           registered_db [] "2024-05-03 08:00:00" =
      (Ok (200,
           JObj [("message", JStr ("Welcome back, " +:+ "alice" +:+ "!"));
                 ("username", JStr "alice")],
           Some (Identity id (JStr "alice"))),
       registered_db) /\
    UserRow id (Text "alice")
      (Text (generate_password_hash (Runtime := sample_runtime) "secret123"))
      ∈ user_table registered_db /\
    (id ∉ map u_id (user_table empty_database)) /\
    check_auth (Some (Identity id (JStr "alice"))) =
      (200, JObj [("isAuthenticated", JBool true); ("username", JStr "alice")]).
Proof.
  apply (register_then_login (checker := sample_checker)
           alice_credentials empty_database "alice" "secret123" sample_now
           "2024-05-03 08:00:00" None).
  - reflexivity.
  - reflexivity.
  - reflexivity.
  - vm_compute. reflexivity.
Defined.

(** Logging in does not depend on the session the caller comes with, and a
    wrong password is refused. *)
Example login_scenario :
  fst (handle (login (checker := sample_checker) (Some bob)
                 (JObj [("username", JStr "alice"); ("password", JStr "guess")]))
              registered_db [] sample_now)
    = Ok (401, error_json "Incorrect password.", Some bob) /\
  fst (handle (login (checker := sample_checker) (Some bob)
                 (JObj [("username", JStr "carol"); ("password", JStr "secret123")]))
              registered_db [] sample_now)
    = Ok (401, error_json "Incorrect username.", Some bob) /\
  fst (handle (login (checker := sample_checker) (Some bob)
                 (JObj [("password", JStr "secret123")]))
              registered_db [] sample_now)
    = Ok (401, error_json "Incorrect username.", Some bob).
Proof. vm_compute. repeat split. Qed.

Lemma login_sound_witness :
  committed (connect registered_db [] sample_now) =
    committed (connect registered_db [] sample_now) /\
  ((200 = 401 /\ Some (Identity 1 (JStr "alice")) = Some bob /\
    exists msg,
      JObj [("message", JStr "Welcome back, alice!"); ("username", JStr "alice")]
      = error_json msg) \/
   (200 = 200 /\
    exists row username password,
      row ∈ user_table (working (connect registered_db [] sample_now)) /\
      get alice_credentials "username" = Ok username /\
      get alice_credentials "password" = Ok password /\
      bind_param username = Ok (u_username row) /\ u_username row <> Null /\
      check_password_hash (PasswordCheck := sample_checker)
        (to_python (u_password row)) password = Ok true /\
      Some (Identity 1 (JStr "alice")) =
        Some (Identity (u_id row) (to_python (u_username row))))).
Proof.
  apply (login_sound (checker := sample_checker) (Some bob) alice_credentials
           (connect registered_db [] sample_now)).
  vm_compute. reflexivity.
Defined.

Lemma one_session_db_reachable : reachable (runtime := sample_runtime) one_session_db.
Proof.
  unfold one_session_db, registered_db.
  apply reachable_save_session, reachable_register, reachable_empty.
Qed.

Lemma reachable_users_ok_witness : users_ok one_session_db.
Proof.
  apply (reachable_users_ok (runtime := sample_runtime) one_session_db).
  exact one_session_db_reachable.
Defined.

Lemma reachable_sessions_numbered_witness :
  map s_id (session_table one_session_db) =
    map Z.of_nat (seq 1 (length (session_table one_session_db))) /\
  map q_session_id (quiz_table one_session_db) = map s_id (session_table one_session_db) /\
  Forall (fun w => w_session_id w ∈ map s_id (session_table one_session_db))
         (word_table one_session_db).
Proof.
  apply (reachable_sessions_numbered (runtime := sample_runtime) one_session_db).
  exact one_session_db_reachable.
Defined.

Lemma save_session_frame_witness :
  fst (serve (get_session_detail (runtime := sample_runtime) alice 1)
         (snd (serve (save_session (runtime := sample_runtime) (Some bob)
                        (sample_session "expert" 55))
                     one_session_db [] "2024-05-02 09:00:00"))
         [] sample_now) =
  fst (serve (get_session_detail (runtime := sample_runtime) alice 1)
         one_session_db [] sample_now).
Proof.
  apply (save_session_frame (runtime := sample_runtime) (Some bob)
           (sample_session "expert" 55) one_session_db [] "2024-05-02 09:00:00" alice 1
           sample_now).
  apply (bool_decide_unpack _). vm_compute. exact I.
Defined.


